(** * QuantumDrop (syspec-drop): envelope encryption of a drop, verified

    A shallow embedding of the drop protocol of the repository:
      - [src/lib/encryption.ts] (the base64 helpers of the client),
      - [syspec-drop-backend-api/src/routes/upload.route.ts],
      - [syspec-drop-backend-api/src/routes/claim.route.ts],
      - [BlockDAGService] and [IPFSService] (the clients both routes use),
      - [syspec-drop-backend-api/src/routes/status.route.ts] and
        [config/app.config.ts],
      - the client of the API ([lib/api-client.ts]), [src/lib/utils.ts] and
        the input checks of the receiver and status pages,
      - the first drop contract ([contract QuantumDrop], Solidity).

    Buffers and [Uint8Array]s are [list byte]. JavaScript strings that only
    hold code units below 256 (binary strings, base64 and hexadecimal text,
    error messages, the generated passphrases) are [string]s; a passphrase
    is represented by its UTF-8 encoding, which is what every use in the
    routes starts from ([Buffer.from(passphrase, 'utf-8')]).

    What the code imports is modelled after its standard and checked against
    the standard's test vectors: base64 (RFC 4648), [keccak_256] of
    [@noble/hashes] (the Keccak sponge), and ['aes-256-gcm'] of Node's
    [crypto] (FIPS 197, SP 800-38D). An exception is an [outcome] that
    [Throws]; [randomBytes], the ledger and the IPFS gateway are the state
    that the handlers thread. *)

From Stdlib Require Import List NArith ZArith Lia Ascii String Bool.
From Stdlib Require Import Strings.Byte.
From Stdlib Require Import DecimalString.
From stdpp Require Import gmap strings list.
From Corelib Require PrimInt63 PrimFloat.
Import ListNotations.

Local Open Scope N_scope.
Local Open Scope list_scope.

(** Division and remainder by constants are handed to [lia] as their
  Euclidean equations. *)
Ltac Zify.zify_post_hook ::= Z.to_euclidean_division_equations.

(** ** Bytes *)

#[global] Instance byte_eq_decision : EqDecision byte := Byte.byte_eq_dec.

Module Bytes.

(** The byte whose value is [n mod 256] (a store into a [Uint8Array]). *)
Definition of_N (n : N) : byte :=
  match Byte.of_N (n mod 256) with
  | Some b => b
  | None => x00
  end.

Definition xor (a b : byte) : byte :=
  of_N (N.lxor (Byte.to_N a) (Byte.to_N b)).

End Bytes.

(** ** Typed arrays and Buffers *)

(** [buf.subarray(start, end)] for non-negative indices: both ends are
  clamped to the length, and an end before the start gives the empty view. *)
Definition subarray (buf : list byte) (start stop : nat) : list byte :=
take (stop - start) (drop start buf).

(** [buf.subarray(start)]: up to the end of the buffer. *)
Definition subarray_from (buf : list byte) (start : nat) : list byte :=
drop start buf.

(** [Buffer.concat(list)]. *)
Definition Buffer_concat (parts : list (list byte)) : list byte :=
concat parts.

(** ** Base64

  [btoa]/[atob] of the browser and the ['base64'] encoding of Node's
  [Buffer] are platform primitives; they are modelled after RFC 4648 (the
  encoder), the WHATWG "forgiving-base64 decode" ([atob], strict) and
  Node's lenient decoder ([Buffer.from(s, 'base64')], which skips what it
  does not know and stops at the padding). *)

Module Base64.

Definition alphabet : string :=
  "ABCDEFGHIJKLMNOPQRSTUVWXYZabcdefghijklmnopqrstuvwxyz0123456789+/".

Definition pad : ascii := "="%char.

(** The digit of a sextet. *)
Definition char (n : N) : ascii :=
  nth (N.to_nat n) (list_ascii_of_string alphabet) pad.

(** The sextet of a digit of the standard alphabet. *)
Definition value (c : ascii) : option N :=
  let n := N_of_ascii c in
  if (65 <=? n) && (n <=? 90) then Some (n - 65)
  else if (97 <=? n) && (n <=? 122) then Some (n - 71)
  else if (48 <=? n) && (n <=? 57) then Some (n + 4)
  else if n =? 43 then Some 62
  else if n =? 47 then Some 63
  else None.

(** Node also reads the URL-safe digits [-] and [_]. *)
Definition value_url (c : ascii) : option N :=
  let n := N_of_ascii c in
  if n =? 45 then Some 62 else if n =? 95 then Some 63 else value c.

Definition is_pad (c : ascii) : bool := N_of_ascii c =? 61.

(** ASCII whitespace: TAB, LF, FF, CR, SPACE. *)
Definition is_space (c : ascii) : bool :=
  let n := N_of_ascii c in
  (n =? 9) || (n =? 10) || (n =? 12) || (n =? 13) || (n =? 32).

(** The sextets of a byte sequence: four for every three bytes, two for a
    last single byte, three for a last pair. *)
Fixpoint sextets (l : list byte) : list N :=
  match l with
  | a :: b :: c :: rest =>
      let n := Byte.to_N a * 65536 + Byte.to_N b * 256 + Byte.to_N c in
      (n / 262144) :: (n / 4096 mod 64) :: (n / 64 mod 64) :: (n mod 64)
        :: sextets rest
  | [a; b] =>
      let n := (Byte.to_N a * 256 + Byte.to_N b) * 4 in
      [n / 4096; n / 64 mod 64; n mod 64]
  | [a] =>
      let n := Byte.to_N a * 16 in
      [n / 64; n mod 64]
  | [] => []
  end.

Fixpoint padding (l : list byte) : list ascii :=
  match l with
  | _ :: _ :: _ :: rest => padding rest
  | [_; _] => [pad]
  | [_] => [pad; pad]
  | [] => []
  end.

Definition encode (l : list byte) : list ascii :=
  map char (sextets l) ++ padding l.

(** The bytes of a sextet sequence; the bits left over at the end are
    dropped, a single trailing sextet holds no byte. *)
Fixpoint octets (ss : list N) : list byte :=
  match ss with
  | s0 :: s1 :: s2 :: s3 :: rest =>
      let n := s0 * 262144 + s1 * 4096 + s2 * 64 + s3 in
      Bytes.of_N (n / 65536) :: Bytes.of_N (n / 256) :: Bytes.of_N n
        :: octets rest
  | [s0; s1; s2] =>
      let n := s0 * 4096 + s1 * 64 + s2 in
      [Bytes.of_N (n / 1024); Bytes.of_N (n / 4)]
  | [s0; s1] =>
      let n := s0 * 64 + s1 in
      [Bytes.of_N (n / 16)]
  | _ => []
  end.

(** *** Node: [buf.toString('base64')] and [Buffer.from(s, 'base64')] *)

Definition to_base64 (buf : list byte) : string :=
  string_of_list_ascii (encode buf).

Fixpoint node_sextets (cs : list ascii) : list N :=
  match cs with
  | [] => []
  | c :: cs' =>
      if is_pad c then []
      else match value_url c with
           | Some v => v :: node_sextets cs'
           | None => node_sextets cs'
           end
  end.

Definition from_base64 (s : string) : list byte :=
  octets (node_sextets (list_ascii_of_string s)).

(** *** Browser: [btoa] and [atob] on binary strings *)

Definition btoa (binary : string) : string :=
  string_of_list_ascii (encode (list_byte_of_string binary)).

(** "If data ends with one or two U+003D (=), remove them." *)
Definition strip_padding (cs : list ascii) : list ascii :=
  match rev cs with
  | c1 :: c2 :: r =>
      if is_pad c1 then (if is_pad c2 then rev r else rev (c2 :: r)) else cs
  | [c1] => if is_pad c1 then [] else cs
  | [] => cs
  end.

Fixpoint values (cs : list ascii) : option (list N) :=
  match cs with
  | [] => Some []
  | c :: cs' =>
      match value c, values cs' with
      | Some v, Some vs => Some (v :: vs)
      | _, _ => None
      end
  end.

(** [None] stands for the [InvalidCharacterError] that [atob] throws. *)
Definition atob (data : string) : option string :=
  let cs := List.filter (fun c => negb (is_space c)) (list_ascii_of_string data) in
  let cs := if (length cs mod 4 =? 0)%nat then strip_padding cs else cs in
  if (length cs mod 4 =? 1)%nat then None
  else match values cs with
       | Some ss => Some (string_of_list_byte (octets ss))
       | None => None
       end.

End Base64.

(** ** [src/lib/encryption.ts] *)

Module Encryption.

(** [String.fromCharCode(chunk[i])] appended for every [i], in order. *)
Fixpoint chunk_string (chunk : list byte) (chunkString : string) : string :=
  match chunk with
  | [] => chunkString
  | b :: chunk' => chunk_string chunk' (chunkString ++ String (ascii_of_byte b) "")
  end.

Definition chunkSize : nat := N.to_nat 32768. (* 0x8000 *)

(** The outer loop of [arrayToBase64]: [fuel] bounds the number of
    iterations, each of which advances [offset] by [size]. *)
Fixpoint chunk_loop (size fuel : nat) (array : list byte) (offset : nat)
    (binary : string) : string :=
  match fuel with
  | O => binary
  | S fuel' =>
      if (offset <? length array)%nat then
        let chunk := subarray array offset (offset + size) in
        let chunkString := chunk_string chunk "" in
        chunk_loop size fuel' array (offset + size) (binary ++ chunkString)
      else binary
  end.

(** [arrayToBase64]. The loop runs at most once per byte of the array. *)
Definition arrayToBase64 (array : list byte) : string :=
  let binary := chunk_loop chunkSize (length array) array 0 "" in
  Base64.btoa binary.

(** [array[i] = binary.charCodeAt(i)] for every [i]. *)
Fixpoint char_codes (binary : string) : list byte :=
  match binary with
  | EmptyString => []
  | String c rest => byte_of_ascii c :: char_codes rest
  end.

(** [base64ToArray]; [None] when [atob] throws. *)
Definition base64ToArray (base64 : string) : option (list byte) :=
  match Base64.atob base64 with
  | Some binary => Some (char_codes binary)
  | None => None
  end.

End Encryption.

(** ** Hexadecimal text

    [bytesToHex] of [@noble/hashes/utils] and [buf.toString('hex')] of Node:
    two lower-case digits per byte. [hexToBytes] is its inverse reading. *)

Module Hex.

Definition digits : string := "0123456789abcdef".

Definition digit (n : N) : ascii :=
  nth (N.to_nat n) (list_ascii_of_string digits) "0"%char.

Fixpoint hex_chars (bytes : list byte) : list ascii :=
  match bytes with
  | [] => []
  | b :: rest =>
      digit (Byte.to_N b / 16) :: digit (Byte.to_N b mod 16) :: hex_chars rest
  end.

Definition bytesToHex (bytes : list byte) : string :=
  string_of_list_ascii (hex_chars bytes).

Definition digit_value (c : ascii) : option N :=
  let n := N_of_ascii c in
  if (48 <=? n) && (n <=? 57) then Some (n - 48)
  else if (97 <=? n) && (n <=? 102) then Some (n - 87)
  else if (65 <=? n) && (n <=? 70) then Some (n - 55)
  else None.

Fixpoint hex_bytes (cs : list ascii) : option (list byte) :=
  match cs with
  | [] => Some []
  | hi :: lo :: rest =>
      match digit_value hi, digit_value lo, hex_bytes rest with
      | Some h, Some l, Some bs => Some (Bytes.of_N (h * 16 + l) :: bs)
      | _, _, _ => None
      end
  | [_] => None
  end.

Definition hexToBytes (hex : string) : option (list byte) :=
  hex_bytes (list_ascii_of_string hex).

End Hex.

(** ** Keccak-256

    [keccak_256] of [@noble/hashes/sha3]: the Keccak sponge with rate 136,
    capacity 512, the original padding (first pad byte [0x01]) and a 32-byte
    digest. Lanes are 64-bit numbers, the state is the list of its 25 lanes,
    lane [(x, y)] at index [x + 5 y]. *)

Module Keccak.

Definition mask64 : N := 18446744073709551615.

Definition rotl64 (x : N) (n : N) : N :=
  N.land (N.lor (N.shiftl x n) (N.shiftr x (64 - n))) mask64.

Definition lane (A : list N) (x y : nat) : N := nth (x + 5 * y) A 0.

Definition round_constants : list N :=
  [ 0x0000000000000001; 0x0000000000008082; 0x800000000000808A;
    0x8000000080008000; 0x000000000000808B; 0x0000000080000001;
    0x8000000080008081; 0x8000000000008009; 0x000000000000008A;
    0x0000000000000088; 0x0000000080008009; 0x000000008000000A;
    0x000000008000808B; 0x800000000000008B; 0x8000000000008089;
    0x8000000000008003; 0x8000000000008002; 0x8000000000000080;
    0x000000000000800A; 0x800000008000000A; 0x8000000080008081;
    0x8000000000008080; 0x0000000080000001; 0x8000000080008008 ].

Definition rotation_offsets : list N :=
  [  0;  1; 62; 28; 27;
    36; 44;  6; 55; 20;
     3; 10; 43; 25; 39;
    41; 45; 15; 21;  8;
    18;  2; 61; 56; 14 ].

Definition positions : list nat := seq 0 25.

Definition theta (A : list N) : list N :=
  let C x := N.lxor (lane A x 0) (N.lxor (lane A x 1) (N.lxor (lane A x 2)
               (N.lxor (lane A x 3) (lane A x 4)))) in
  let D x := N.lxor (C ((x + 4) mod 5)%nat) (rotl64 (C ((x + 1) mod 5)%nat) 1) in
  map (fun i => N.lxor (nth i A 0) (D (i mod 5)%nat)) positions.

(** [B[y, 2x+3y] = rot(A[x, y], r[x, y])], read at the target position. *)
Definition rho_pi (A : list N) : list N :=
  map (fun i =>
         let X := (i mod 5)%nat in
         let Y := (i / 5)%nat in
         let x := ((X + 3 * Y) mod 5)%nat in
         rotl64 (lane A x X) (nth (x + 5 * X) rotation_offsets 0))
      positions.

Definition chi (B : list N) : list N :=
  map (fun i =>
         let x := (i mod 5)%nat in
         let y := (i / 5)%nat in
         N.lxor (lane B x y)
                (N.ldiff (lane B ((x + 2) mod 5) y) (lane B ((x + 1) mod 5) y)))
      positions.

Definition iota (rc : N) (A : list N) : list N :=
  match A with
  | a :: rest => N.lxor a rc :: rest
  | [] => []
  end.

Definition round (A : list N) (rc : N) : list N :=
  iota rc (chi (rho_pi (theta A))).

Definition keccak_f (A : list N) : list N :=
  fold_left round round_constants A.

Definition rate : nat := 136.

(** [pad10*1] with the Keccak domain byte [0x01]. *)
Definition pad (message : list byte) : list byte :=
  let q := (rate - length message mod rate)%nat in
  match q with
  | 1%nat => message ++ [x81]
  | _ => message ++ [x01] ++ repeat x00 (q - 2) ++ [x80]
  end.

(** The little-endian 64-bit lane at byte offset [8 i] of a block. *)
Definition block_lane (block : list byte) (i : nat) : N :=
  fold_right (fun b acc => Byte.to_N b + 256 * acc) 0
             (take 8 (drop (8 * i) block)).

Definition absorb_block (A : list N) (block : list byte) : list N :=
  keccak_f (map (fun i => N.lxor (nth i A 0) (block_lane block i)) positions).

Fixpoint absorb (blocks : nat) (A : list N) (input : list byte) : list N :=
  match blocks with
  | O => A
  | S blocks' => absorb blocks' (absorb_block A (take rate input)) (drop rate input)
  end.

Definition squeeze_byte (A : list N) (i : nat) : byte :=
  Bytes.of_N (N.shiftr (nth (i / 8) A 0) (8 * N.of_nat (i mod 8))).

Definition keccak_256 (message : list byte) : list byte :=
  let input := pad message in
  let A := absorb (length input / rate) (repeat 0 25) input in
  map (squeeze_byte A) (seq 0 32).

End Keccak.

(** ** AES-256

    The block cipher behind Node's ['aes-256-gcm'] (FIPS 197, [Nk = 8],
    [Nr = 14]). Bytes are numbers below 256; the state and the round keys
    are lists of 16 bytes in column order ([s[r, c]] at index [r + 4 c]). *)

Module AES.

Definition xtime (a : N) : N :=
  let s := 2 * a in
  if s <? 256 then s else N.lxor (s - 256) 27.

(** Multiplication in GF(2^8), bit by bit over the eight bits of [b]. *)
Fixpoint gmul_bits (bits : nat) (a b : N) : N :=
  match bits with
  | O => 0
  | S bits' =>
      N.lxor (if N.odd b then a else 0) (gmul_bits bits' (xtime a) (b / 2))
  end.

Definition gmul (a b : N) : N := gmul_bits 8 a b.

Fixpoint gpow (a : N) (e : nat) : N :=
  match e with
  | O => 1
  | S e' => gmul a (gpow a e')
  end.

Definition rotl8 (b : N) (n : N) : N :=
  N.lor (N.shiftl b n) (N.shiftr b (8 - n)) mod 256.

(** The S-box: the inverse in GF(2^8) ([0] for [0]) followed by the affine
    map. *)
Definition sbox_entry (b : N) : N :=
  let s := gpow b 254 in
  N.lxor s (N.lxor (rotl8 s 1) (N.lxor (rotl8 s 2) (N.lxor (rotl8 s 3)
    (N.lxor (rotl8 s 4) 99)))).

Definition sbox_table : list N :=
  Eval vm_compute in map (fun i => sbox_entry (N.of_nat i)) (seq 0 256).

Definition sbox (b : N) : N := nth (N.to_nat b) sbox_table 0.

Definition xor_bytes (a b : list N) : list N := zip_with N.lxor a b.

Definition rcon : list N := [1; 2; 4; 8; 16; 32; 64].

(** [w] holds the words [w[0] .. w[i-1]] (four bytes each), in order. *)
Fixpoint expand (count i : nat) (w : list (list N)) : list (list N) :=
  match count with
  | O => w
  | S count' =>
      let prev := nth (i - 1) w [] in
      let temp :=
        if (i mod 8 =? 0)%nat then
          xor_bytes (map sbox (drop 1 prev ++ take 1 prev))
                    [nth (i / 8 - 1) rcon 0; 0; 0; 0]
        else if (i mod 8 =? 4)%nat then map sbox prev
        else prev in
      expand count' (S i) (w ++ [xor_bytes (nth (i - 8) w []) temp])
  end.

Definition key_words (key : list N) : list (list N) :=
  map (fun i => take 4 (drop (4 * i) key)) (seq 0 8).

(** The 15 round keys of a 32-byte key. *)
Definition key_schedule (key : list N) : list (list N) :=
  let w := expand 52 8 (key_words key) in
  map (fun r => concat (take 4 (drop (4 * r) w))) (seq 0 15).

Definition sub_bytes (s : list N) : list N := map sbox s.

Definition shift_rows (s : list N) : list N :=
  map (fun i => nth (i mod 4 + 4 * ((i / 4 + i mod 4) mod 4)) s 0) (seq 0 16).

Definition mix_column (a0 a1 a2 a3 : N) : list N :=
  [ N.lxor (gmul 2 a0) (N.lxor (gmul 3 a1) (N.lxor a2 a3));
    N.lxor a0 (N.lxor (gmul 2 a1) (N.lxor (gmul 3 a2) a3));
    N.lxor a0 (N.lxor a1 (N.lxor (gmul 2 a2) (gmul 3 a3)));
    N.lxor (gmul 3 a0) (N.lxor a1 (N.lxor a2 (gmul 2 a3))) ].

Definition mix_columns (s : list N) : list N :=
  flat_map (fun c => mix_column (nth (4 * c) s 0) (nth (4 * c + 1) s 0)
                                (nth (4 * c + 2) s 0) (nth (4 * c + 3) s 0))
           (seq 0 4).

Definition middle_round (s rk : list N) : list N :=
  xor_bytes (mix_columns (shift_rows (sub_bytes s))) rk.

Definition final_round (s rk : list N) : list N :=
  xor_bytes (shift_rows (sub_bytes s)) rk.

(** The cipher on one 16-byte block, given the round keys. *)
Definition cipher (rks : list (list N)) (block : list N) : list N :=
  let s := xor_bytes block (nth 0 rks []) in
  let s := fold_left middle_round (take 13 (drop 1 rks)) s in
  final_round s (nth 14 rks []).

End AES.

(** ** Galois/Counter Mode

    NIST SP 800-38D with no additional data, as [createCipheriv] and
    [createDecipheriv] of Node run it for ['aes-256-gcm']. Blocks are
    128-bit numbers (the first byte is the most significant). *)

Module GCM.

Definition block_of_bytes (bytes : list N) : N :=
  fold_left (fun acc b => 256 * acc + b) bytes 0.

Definition bytes_of_block (x : N) : list N :=
  map (fun i => N.shiftr x (8 * (15 - N.of_nat i)) mod 256) (seq 0 16).

(** A chunk of at most 16 bytes, zero-padded on the right to a block. *)
Definition padded_block (chunk : list N) : N :=
  block_of_bytes (chunk ++ repeat 0 (16 - length chunk)).

Definition blocks_count (n : nat) : nat := (n + 15) / 16.

Definition blocks (data : list N) : list N :=
  map (fun j => padded_block (take 16 (drop (16 * j) data)))
      (seq 0 (blocks_count (length data))).

Definition R : N := N.shiftl 225 120.

(** Multiplication in GF(2^128), over the bits of [X] from the leftmost. *)
Fixpoint gf_mult_bits (bits : nat) (X Z V : N) : N :=
  match bits with
  | O => Z
  | S bits' =>
      let Z' := if N.testbit X (N.of_nat bits') then N.lxor Z V else Z in
      let V' := if N.testbit V 0 then N.lxor (N.shiftr V 1) R else N.shiftr V 1 in
      gf_mult_bits bits' X Z' V'
  end.

Definition gf_mult (X Y : N) : N := gf_mult_bits 128 X 0 Y.

Definition ghash (H : N) (xs : list N) : N :=
  fold_left (fun Y X => gf_mult (N.lxor Y X) H) xs 0.

Definition encrypt_block (rks : list (list N)) (x : N) : N :=
  block_of_bytes (AES.cipher rks (bytes_of_block x)).

(** The pre-counter block [J0]. *)
Definition J0 (H : N) (iv : list N) : N :=
  if (length iv =? 12)%nat then block_of_bytes iv * 4294967296 + 1
  else ghash H (blocks iv ++ [8 * N.of_nat (length iv)]).

(** [inc32] applied [j] times. *)
Definition counter (j0 : N) (j : N) : N :=
  (j0 / 4294967296) * 4294967296 + (j0 mod 4294967296 + j) mod 4294967296.

(** The first [16 * blocks_count n] bytes of the key stream. *)
Definition keystream (rks : list (list N)) (j0 : N) (n : nat) : list N :=
  flat_map (fun j => bytes_of_block (encrypt_block rks (counter j0 (N.of_nat (S j)))))
           (seq 0 (blocks_count n)).

Definition gctr (rks : list (list N)) (j0 : N) (data : list byte) : list byte :=
  zip_with (fun b k => Bytes.xor b (Bytes.of_N k)) data
           (keystream rks j0 (length data)).

(** The full 16-byte tag of a ciphertext. *)
Definition tag (rks : list (list N)) (H j0 : N) (ciphertext : list byte) : list byte :=
  let c := map Byte.to_N ciphertext in
  let S := ghash H (blocks c ++ [8 * N.of_nat (length c)]) in
  map Bytes.of_N (bytes_of_block (N.lxor S (encrypt_block rks j0))).

End GCM.

(** ** Node's [crypto] for ['aes-256-gcm'] *)

Module Crypto.

(** What [createCipheriv], [createDecipheriv], [setAuthTag] and [final]
    throw. *)
Inductive error : Type :=
| InvalidKeyLength
| InvalidInitializationVector
| InvalidAuthTagLength
| UnableToAuthenticate.

Inductive outcome (A : Type) : Type :=
| Returns (a : A)
| Throws (e : error).
Arguments Returns {A} a.
Arguments Throws {A} e.

(** [cipher.update(data)], [cipher.final()] and [cipher.getAuthTag()] of
    [createCipheriv('aes-256-gcm', key, iv)]: the ciphertext and the 16-byte
    tag. The key must have 32 bytes, the IV at least one. *)
Definition aes_256_gcm_encrypt (key iv data : list byte)
  : outcome (list byte * list byte) :=
  if negb (length key =? 32)%nat then Throws InvalidKeyLength
  else if (length iv =? 0)%nat then Throws InvalidInitializationVector
  else
    let rks := AES.key_schedule (map Byte.to_N key) in
    let H := GCM.encrypt_block rks 0 in
    let j0 := GCM.J0 H (map Byte.to_N iv) in
    let ciphertext := GCM.gctr rks j0 data in
    Returns (ciphertext, GCM.tag rks H j0 ciphertext).

(** The tag lengths SP 800-38D allows, which [setAuthTag] accepts. *)
Definition valid_tag_length (n : nat) : bool :=
  (n =? 4)%nat || (n =? 8)%nat || ((12 <=? n)%nat && (n <=? 16)%nat).

(** [decipher.setAuthTag(authTag)], [decipher.update(data)] and
    [decipher.final()] of [createDecipheriv('aes-256-gcm', key, iv)]:
    [final] throws unless the tag is the leading part of the tag of the
    data. *)
Definition aes_256_gcm_decrypt (key iv authTag data : list byte)
  : outcome (list byte) :=
  if negb (length key =? 32)%nat then Throws InvalidKeyLength
  else if (length iv =? 0)%nat then Throws InvalidInitializationVector
  else if negb (valid_tag_length (length authTag)) then Throws InvalidAuthTagLength
  else
    let rks := AES.key_schedule (map Byte.to_N key) in
    let H := GCM.encrypt_block rks 0 in
    let j0 := GCM.J0 H (map Byte.to_N iv) in
    if decide (take (length authTag) (GCM.tag rks H j0 data) = authTag)
    then Returns (GCM.gctr rks j0 data)
    else Throws UnableToAuthenticate.

End Crypto.

(** ** The world around the routes

    What the two routes reach outside themselves: the entropy source behind
    [randomBytes], the storage of the drop contract and the pinned content
    of the IPFS gateway. Every [await] runs to completion before the next
    statement, so a handler is a function from the world to its reply and
    the world it leaves. *)

Record Drop : Type := mkDrop {
  drop_ipfsHash : string;
  drop_encryptedSymKey : string;
  drop_passphraseHash : string;   (* the [bytes32], as 0x-prefixed hex *)
  drop_isActive : bool;
  drop_claimCount : N
}.

Record World : Type := mkWorld {
  entropy : nat -> byte;            (* the bytes [randomBytes] hands out *)
  drawn : nat;                      (* how many it handed out so far *)
  drops : gmap string Drop;         (* [mapping(string => Drop)] *)
  pins : gmap string (list byte);   (* pinned content, by CID *)
  cid_of : list byte -> string      (* the CID the gateway gives a content *)
}.

Definition M (A : Type) : Type := World -> A * World.

Definition ret {A} (a : A) : M A := fun w => (a, w).

Definition bind {A B} (m : M A) (k : A -> M B) : M B :=
  fun w => let (a, w') := m w in k a w'.

Notation "'let*' x ':=' m 'in' k" := (bind m (fun x => k))
  (at level 10, x pattern, m at level 100, k at level 200).

(** The next [n] bytes of the entropy source, and the world once they
    are drawn. *)
Definition peek (w : World) (n : nat) : list byte :=
  map (fun i => entropy w (drawn w + i)) (seq 0 n).

Definition advance (w : World) (n : nat) : World :=
  mkWorld (entropy w) (drawn w + n) (drops w) (pins w) (cid_of w).

(** [crypto.randomBytes(n)]. *)
Definition randomBytes (n : nat) : M (list byte) :=
  fun w => (peek w n, advance w n).

(** [Buffer.from(s, 'utf-8')] of a string given by its UTF-8 encoding. *)
Definition utf8 (s : string) : list byte := list_byte_of_string s.

(** [s.includes(part)] and [s.startsWith(part)]. *)
Definition includes (part s : string) : bool :=
  match String.index 0 part s with
  | Some _ => true
  | None => false
  end.

Definition startsWith (part s : string) : bool := String.prefix part s.

(** [AsyncResult<T>] of [common.types.ts], once awaited. *)
Inductive AsyncResult (T : Type) : Type :=
| Success (data : T)
| Failure (error : string).
Arguments Success {T} data.
Arguments Failure {T} error.

(** ** The drop contract

    Modelled from the spec: the QuantumDropV3 contract itself is not under
    src/ (its ABI is, in [BlockDAGService]). The ledger "stores drop records
    and enforces that only the entity matching the stored
    passphrase-commitment may retrieve stored values"; [createRecord] stores
    locator, key envelope and commitment under the drop identifier and
    [claimRecord] fails with [RecordNotFound], [RecordInactive] or
    [CommitmentMismatch]. The revert reasons are those the README quotes
    (["Invalid passphrase"], ["Drop not active"]) and those of the first
    contract, which is under src/ (["Drop exists"], ["Drop missing"]). *)

Module Contract.

(** A call returns or reverts with a reason. *)
Inductive call (A : Type) : Type :=
| Returned (a : A)
| Reverted (reason : string).
Arguments Returned {A} a.
Arguments Reverted {A} reason.

Definition createDrop (dropId ipfsHash encryptedSymKey passphraseHash : string)
  : M (call unit) :=
  fun w =>
    match drops w !! dropId with
    | Some _ => (Reverted "Drop exists", w)
    | None =>
        let d := mkDrop ipfsHash encryptedSymKey passphraseHash true 0 in
        (Returned tt,
         mkWorld (entropy w) (drawn w) (<[dropId := d]> (drops w)) (pins w) (cid_of w))
    end.

Definition getDrop (dropId : string) : M (call Drop) :=
  fun w =>
    match drops w !! dropId with
    | Some d => (Returned d, w)
    | None => (Reverted "Drop missing", w)
    end.

Definition claimDrop (dropId passphraseHash : string) : M (call unit) :=
  fun w =>
    match drops w !! dropId with
    | None => (Reverted "Drop not active", w)
    | Some d =>
        if negb (drop_isActive d) then (Reverted "Drop not active", w)
        else if negb (String.eqb (drop_passphraseHash d) passphraseHash)
        then (Reverted "Invalid passphrase", w)
        else
          let d' := mkDrop (drop_ipfsHash d) (drop_encryptedSymKey d)
                           (drop_passphraseHash d) (drop_isActive d)
                           (drop_claimCount d + 1) in
          (Returned tt,
           mkWorld (entropy w) (drawn w) (<[dropId := d']> (drops w)) (pins w) (cid_of w))
    end.

End Contract.

(** ** [BlockDAGService] *)

Module BlockDAGService.

(** "Just ensure it has 0x prefix for bytes32". *)
Definition bytes32 (passphraseHash : string) : string :=
  if startsWith "0x" passphraseHash then passphraseHash
  else ("0x" ++ passphraseHash)%string.

(** The message of the error a reverted call throws. *)
Definition revert_message (reason : string) : string :=
  ("execution reverted: " ++ reason)%string.

Record BlockDAGMetadata : Type := mkMetadata {
  dropId : string;
  ipfsHash : string;
  encryptedSymKey : string;
  passphraseHash : string
}.

Definition createDrop (metadata : BlockDAGMetadata) : M (AsyncResult unit) :=
  let passphraseHashBytes32 := bytes32 (passphraseHash metadata) in
  let* tx := Contract.createDrop (dropId metadata) (ipfsHash metadata)
               (encryptedSymKey metadata) passphraseHashBytes32 in
  match tx with
  | Contract.Returned _ => ret (Success tt)
  | Contract.Reverted reason =>
      ret (Failure ("BlockDAG transaction failed: " ++ revert_message reason)%string)
  end.

Definition claimDrop (dropId passphraseHash : string)
  : M (AsyncResult (string * string)) :=
  let passphraseHashBytes32 := bytes32 passphraseHash in
  (* FIRST: Check if drop exists and is active *)
  let* found := Contract.getDrop dropId in
  match found with
  | Contract.Reverted _ => ret (Failure "Drop does not exist")
  | Contract.Returned drop =>
      if negb (drop_isActive drop) then ret (Failure "Drop is not active")
      else
        let ipfsHash := drop_ipfsHash drop in
        let encryptedSymKey := drop_encryptedSymKey drop in
        (* Call claimDrop to verify passphrase and update claim counter *)
        let* tx := Contract.claimDrop dropId passphraseHashBytes32 in
        match tx with
        | Contract.Returned _ => ret (Success (ipfsHash, encryptedSymKey))
        | Contract.Reverted reason =>
            let message := revert_message reason in
            if includes "Invalid passphrase" message
            then ret (Failure "Invalid passphrase")
            else if includes "inactive" message
            then ret (Failure "Drop is not active")
            else ret (Failure ("Claim transaction failed: " ++ message)%string)
        end
  end.

End BlockDAGService.

(** ** [IPFSService]

    The gateway pins a content under the CID it gives it and serves it back
    under that CID. (The network does not fail in this model: [uploadFile]
    always succeeds, [fetchFile] fails for a CID that is not pinned.) *)

Module IPFSService.

Definition uploadFile (fileBuffer : list byte) : M (AsyncResult string) :=
  fun w =>
    let cid := cid_of w fileBuffer in
    (Success cid,
     mkWorld (entropy w) (drawn w) (drops w) (<[cid := fileBuffer]> (pins w)) (cid_of w)).

Definition fetchFile (cid : string) : M (AsyncResult (list byte)) :=
  fun w =>
    match pins w !! cid with
    | Some data => (Success data, w)
    | None => (Failure "Failed to fetch file from IPFS: Failed to fetch: 404 Not Found", w)
    end.

End IPFSService.

(** ** [routes/upload.route.ts] *)

Module Upload.

Import Crypto.

Definition words : list string :=
  [ "quantum"; "secure"; "drop"; "anonymous"; "encrypted"; "blockdag";
    "whistle"; "blow"; "safe"; "data"; "privacy"; "freedom";
    "crypto"; "shield"; "guardian"; "vault"; "lock"; "key" ].

(** [array.join(separator)]. *)
Fixpoint join (separator : string) (parts : list string) : string :=
  match parts with
  | [] => ""
  | [part] => part
  | part :: rest => (part ++ separator ++ join separator rest)%string
  end.

(** One turn of the loop of [generatePassphrase]: a word is pushed only when
    the byte and the word are defined. *)
Definition pick_word (passphrase : list string) : M (list string) :=
  let* bytes := randomBytes 1 in
  match bytes !! 0%nat with
  | Some byte =>
      let randomIndex := (Byte.to_nat byte mod length words)%nat in
      match words !! randomIndex with
      | Some word => ret (passphrase ++ [word])
      | None => ret passphrase
      end
  | None => ret passphrase
  end.

Fixpoint pick_words (count : nat) (passphrase : list string) : M (list string) :=
  match count with
  | O => ret passphrase
  | S count' =>
      let* passphrase' := pick_word passphrase in
      pick_words count' passphrase'
  end.

Definition generatePassphrase : M string :=
  let* passphrase := pick_words 6 [] in
  ret (join "-" passphrase).

Record EncryptedFile : Type := mkEncryptedFile {
  encryptedData : list byte;
  iv : list byte;
  authTag : list byte;
  key : list byte
}.

Definition encryptFile (fileBuffer : list byte) : M (outcome EncryptedFile) :=
  let* key := randomBytes 32 in
  let* iv := randomBytes 12 in
  match aes_256_gcm_encrypt key iv fileBuffer with
  | Returns (encrypted, authTag) => ret (Returns (mkEncryptedFile encrypted iv authTag key))
  | Throws e => ret (Throws e)
  end.

(** "Use passphrase hash as KEK (Key Encryption Key)". *)
Definition encryptSymmetricKey (symmetricKey : list byte) (passphrase : string)
  : M (outcome string) :=
  let passphraseBytes := utf8 passphrase in
  let kek := Keccak.keccak_256 passphraseBytes in
  let* iv := randomBytes 12 in
  match aes_256_gcm_encrypt kek iv symmetricKey with
  | Returns (encryptedKey, authTag) =>
      let combined := Buffer_concat [iv; authTag; encryptedKey] in
      ret (Returns (Base64.to_base64 combined))
  | Throws e => ret (Throws e)
  end.

(** The commitment the handler stores on the ledger. *)
Definition passphraseHash (passphrase : string) : string :=
  Hex.bytesToHex (Keccak.keccak_256 (utf8 passphrase)).

Inductive reply : Type :=
| Created (dropId ipfsHash passphrase : string)        (* 201 *)
| Failed (status : N) (error code : string).

Definition UPLOAD_ERROR : reply := Failed 500 "Internal server error" "UPLOAD_ERROR".

(** The handler of [POST /api/upload] from step 2 on, for a given
    passphrase: the [createDrop] of the specification. The reply keeps the
    status, the drop identifier, the CID and the passphrase (the transaction
    hash and the explorer URL are left out). *)
Definition createDrop (passphrase : string) (file : string) : M reply :=
  let passphraseHash := passphraseHash passphrase in
  (* Step 2: Encrypt file with AES-256-GCM *)
  let fileBuffer := Base64.from_base64 file in
  let* encryptedFile := encryptFile fileBuffer in
  match encryptedFile with
  | Throws _ => ret UPLOAD_ERROR
  | Returns e =>
      let encryptedFile := Buffer_concat [iv e; authTag e; encryptedData e] in
      (* Step 3: Upload encrypted file to IPFS *)
      let* ipfsResult := IPFSService.uploadFile encryptedFile in
      match ipfsResult with
      | Failure error => ret (Failed 500 error "IPFS_UPLOAD_FAILED")
      | Success ipfsHash =>
          (* Step 4: Encrypt symmetric key with passphrase *)
          let* encryptedSymKey := encryptSymmetricKey (key e) passphrase in
          match encryptedSymKey with
          | Throws _ => ret UPLOAD_ERROR
          | Returns encryptedSymKey =>
              (* Step 5: Generate unique short dropId *)
              let* idBytes := randomBytes 4 in
              let dropId := Hex.bytesToHex idBytes in
              (* Step 6: Store metadata on BlockDAG *)
              let metadata :=
                BlockDAGService.mkMetadata dropId ipfsHash encryptedSymKey passphraseHash in
              let* blockdagResult := BlockDAGService.createDrop metadata in
              match blockdagResult with
              | Failure error => ret (Failed 500 error "BLOCKDAG_CREATE_FAILED")
              | Success _ => ret (Created dropId ipfsHash passphrase)
              end
          end
      end
  end.

(** [POST /api/upload]. *)
Definition handler (file : string) : M reply :=
  (* Step 1: Generate passphrase *)
  let* passphrase := generatePassphrase in
  createDrop passphrase file.

End Upload.

(** ** JavaScript numbers

    A JavaScript number is a binary64 floating-point number; the counters
    and lengths of the routes are the numbers of naturals below [2 ^ 53],
    which are exact. *)

Module Number.

Import PrimInt63 PrimFloat.

Definition number : Set := float.

Fixpoint int_of_positive (p : positive) : int :=
  match p with
  | xH => 1%uint63
  | xO p' => lsl (int_of_positive p') 1%uint63
  | xI p' => lor (lsl (int_of_positive p') 1%uint63) 1%uint63
  end.

(** The number of a natural. *)
Definition of_N (n : N) : number :=
  match n with
  | N0 => of_uint63 0%uint63
  | Npos p => of_uint63 (int_of_positive p)
  end.

(** [x / y] and [x > y]; [0 / 0] is [NaN], and [NaN > y] is [false]. *)
Definition div (x y : number) : number := PrimFloat.div x y.

Definition gt (x y : number) : bool := PrimFloat.ltb y x.

(** The number that the literal [0.85] denotes: the binary64 number nearest
    to it. *)
Definition literal_0_85 : number := 0x1.b333333333333p-1%float.

End Number.

(** ** [buf.toString(encoding, start, end)]

    The bytes from [start] up to [end] (both clamped to the buffer) decoded
    as text: ['hex'] gives two lower-case digits per byte; ['binary'] (Latin-1)
    gives the character of each byte; ['ascii'] does the same after
    unsetting the highest bit of each byte. *)

Module Buffer.

Definition toString_hex (buf : list byte) (start stop : nat) : string :=
  Hex.bytesToHex (subarray buf start stop).

Definition toString_binary (buf : list byte) (start stop : nat) : string :=
  string_of_list_byte (subarray buf start stop).

Definition toString_ascii (buf : list byte) (start stop : nat) : string :=
  string_of_list_ascii
    (map (fun b => ascii_of_N (Byte.to_N b mod 128)) (subarray buf start stop)).

End Buffer.

(** ** [routes/claim.route.ts] *)

Module Claim.

Import Crypto.

(** The test of the loop of [isTextFile]: a printable ASCII character, a
    TAB, a line feed or a carriage return. *)
Definition is_printable (b : byte) : bool :=
  let n := Byte.to_N b in
  ((32 <=? n) && (n <=? 126)) || (n =? 9) || (n =? 10) || (n =? 13).

(** [for (const byte of sample) { if (...) printable++ }]. *)
Fixpoint count_printable (sample : list byte) (printable : N) : N :=
  match sample with
  | [] => printable
  | b :: sample' =>
      count_printable sample' (if is_printable b then printable + 1 else printable)
  end.

(** "Check if buffer contains mostly printable text". *)
Definition isTextFile (buffer : list byte) : bool :=
  let sample := subarray buffer 0 (Nat.min 512 (length buffer)) in
  let printable := count_printable sample 0 in
  Number.gt
    (Number.div (Number.of_N printable) (Number.of_N (N.of_nat (length sample))))
    Number.literal_0_85.

Record FileType : Type := mkFileType {
  ext : string;
  mimeType : string
}.

(** "Detect file type from magic bytes (file signature)". *)
Definition detectFileType (buffer : list byte) : FileType :=
  let header := Buffer.toString_hex buffer 0 4 in
  (* ZIP-based formats (Office files) *)
  if String.eqb (Buffer.toString_ascii buffer 0 2) "PK" then
    let searchLength := Nat.min 4000 (length buffer) in
    let content := Buffer.toString_binary buffer 0 searchLength in
    if includes "word/" content then
      mkFileType "docx"
        "application/vnd.openxmlformats-officedocument.wordprocessingml.document"
    else if includes "xl/" content then
      mkFileType "xlsx"
        "application/vnd.openxmlformats-officedocument.spreadsheetml.sheet"
    else if includes "ppt/" content then
      mkFileType "pptx"
        "application/vnd.openxmlformats-officedocument.presentationml.presentation"
    else mkFileType "zip" "application/zip"
  (* Common file types *)
  else if startsWith "89504e47" header then mkFileType "png" "image/png"
  else if startsWith "ffd8ffe0" header || startsWith "ffd8ffe1" header
          || startsWith "ffd8ffe2" header
  then mkFileType "jpg" "image/jpeg"
  else if startsWith "25504446" header then mkFileType "pdf" "application/pdf"
  else if startsWith "47494638" header then mkFileType "gif" "image/gif"
  else if String.eqb (Buffer.toString_ascii buffer 0 4) "%!PS"
  then mkFileType "ps" "application/postscript"
  (* Text files *)
  else if startsWith "efbbbf" header || isTextFile buffer
  then mkFileType "txt" "text/plain"
  (* Default binary *)
  else mkFileType "bin" "application/octet-stream".

(** The three views both decrypt functions take of an envelope:
    [subarray(0, 12)], [subarray(12, 28)] and [subarray(28)]. *)
Definition unpack (combined : list byte) : list byte * list byte * list byte :=
  (subarray combined 0 12, subarray combined 12 28, subarray_from combined 28).

Definition decryptSymmetricKey (encryptedSymKey passphrase : string)
  : outcome (list byte) :=
  let combined := Base64.from_base64 encryptedSymKey in
  let iv := subarray combined 0 12 in
  let authTag := subarray combined 12 28 in
  let encryptedKey := subarray_from combined 28 in
  let passphraseBytes := utf8 passphrase in
  let kek := Keccak.keccak_256 passphraseBytes in
  aes_256_gcm_decrypt kek iv authTag encryptedKey.

Definition decryptFile (encryptedFile symmetricKey : list byte)
  : outcome (list byte) :=
  let iv := subarray encryptedFile 0 12 in
  let authTag := subarray encryptedFile 12 28 in
  let encryptedData := subarray_from encryptedFile 28 in
  aes_256_gcm_decrypt symmetricKey iv authTag encryptedData.

(** The reply: the status, error and code of a failure, or the decrypted
    bytes of a success (the file name and MIME type that [detectFileType]
    adds to a success, and its JSON variant, are left out). *)
Inductive reply : Type :=
| File (decryptedFile : list byte)                     (* 200 *)
| Failed (status : N) (error code : string).

(** What the [catch] of the handler sends. *)
Definition CLAIM_ERROR : reply := Failed 500 "Internal server error" "CLAIM_ERROR".

(** [POST /api/claim]. *)
Definition handler (dropId passphrase : string) : M reply :=
  (* Step 1: Hash passphrase *)
  let passphraseBytes := utf8 passphrase in
  let passphraseHash := Hex.bytesToHex (Keccak.keccak_256 passphraseBytes) in
  (* Step 2: claimDrop() verifies the passphrase and tracks claims *)
  let* claimResult := BlockDAGService.claimDrop dropId passphraseHash in
  match claimResult with
  | Failure error =>
      if includes "Invalid passphrase" error
      then ret (Failed 401 "Invalid passphrase" "INVALID_PASSPHRASE")
      else if includes "not exist" error
      then ret (Failed 404 "Drop not found" "DROP_NOT_FOUND")
      else if includes "not active" error
      then ret (Failed 403 "Drop has been deactivated by owner" "DROP_INACTIVE")
      else ret (Failed 500 error "CLAIM_FAILED")
  | Success (ipfsHash, encryptedSymKey) =>
      (* Step 3: Retrieve encrypted file from IPFS *)
      let* fileResult := IPFSService.fetchFile ipfsHash in
      match fileResult with
      | Failure error => ret (Failed 500 error "IPFS_FETCH_FAILED")
      | Success data =>
          (* Step 4: Validate encrypted key is available *)
          if String.eqb encryptedSymKey ""
          then ret (Failed 500 "Encrypted key not available from contract" "KEY_NOT_AVAILABLE")
          else
            (* Step 5: Decrypt symmetric key using passphrase *)
            match decryptSymmetricKey encryptedSymKey passphrase with
            | Throws _ => ret CLAIM_ERROR
            | Returns symmetricKey =>
                (* Step 6: Decrypt file with symmetric key *)
                match decryptFile data symmetricKey with
                | Throws _ => ret CLAIM_ERROR
                | Returns decryptedFile => ret (File decryptedFile)
                end
            end
      end
  end.

(** Step 7 and what the handler sends. The name of the file and its type
    come from [detectFileType] on the decrypted file. With [?format=json]
    the handler sends a JSON object that holds the file in base64; otherwise
    it sends the file itself as an attachment. A failure is a JSON object in
    both cases. (The transaction hash, which both forms carry, is left out,
    as in [reply].) *)
Definition fileName (dropId ext : string) : string :=
  ("drop-" ++ String.substring 0 8 dropId ++ "." ++ ext)%string.

Inductive json : Type :=
| Claimed (fileName fileContent fileType mimeType : string)          (* 200 *)
| Refused (status : N) (error code : string).

Inductive response : Type :=
| Json (body : json)
| Attachment (contentType contentDisposition : string) (contentLength : nat)
             (xFileType : string) (body : list byte).                (* 200 *)

Definition send (dropId : string) (format : option string) (r : reply) : response :=
  match r with
  | Failed status error code => Json (Refused status error code)
  | File decryptedFile =>
      (* Step 7: Detect file type from magic bytes *)
      let fileType := detectFileType decryptedFile in
      let fileName := fileName dropId (ext fileType) in
      (* Check if user wants JSON response *)
      if bool_decide (format = Some "json")
      then Json (Claimed fileName (Base64.to_base64 decryptedFile) (ext fileType)
                         (mimeType fileType))
      (* Default: Return actual file download *)
      else Attachment (mimeType fileType)
                      ("attachment; filename=" ++ String "034" (fileName ++ String "034" ""))
                      (length decryptedFile) (ext fileType) decryptedFile
  end.


End Claim.

(** ** JavaScript strings

    The methods of [String] that the client uses, on strings of code units
    below 256. *)

Module JS.

(** [String(n)] of a natural: its decimal digits. *)
Definition of_N (n : N) : string := NilZero.string_of_uint (N.to_uint n).

Fixpoint drop_while (p : ascii -> bool) (cs : list ascii) : list ascii :=
  match cs with
  | [] => []
  | c :: cs' => if p c then drop_while p cs' else cs
  end.

(** The white space and line terminators below 256: TAB, LF, VT, FF, CR,
    SPACE and NBSP. *)
Definition is_white_space (c : ascii) : bool :=
  let n := N_of_ascii c in
  (n =? 9) || (n =? 10) || (n =? 11) || (n =? 12) || (n =? 13) || (n =? 32)
  || (n =? 160).

(** [s.trim()]. *)
Definition trim (s : string) : string :=
  string_of_list_ascii
    (rev (drop_while is_white_space
            (rev (drop_while is_white_space (list_ascii_of_string s))))).

(** [s.toLowerCase()]: the letters [A]-[Z] and the upper-case letters of
    Latin-1 ([U+00C0]-[U+00DE] without the multiplication sign) move up
    by 32. *)
Definition lower (c : ascii) : ascii :=
  let n := N_of_ascii c in
  if ((65 <=? n) && (n <=? 90))
     || ((192 <=? n) && (n <=? 222) && negb (n =? 215))
  then ascii_of_N (n + 32) else c.

Definition toLowerCase (s : string) : string :=
  string_of_list_ascii (map lower (list_ascii_of_string s)).

(** Whether a list of characters starts with a pattern. *)
Fixpoint starts (pattern cs : list ascii) : bool :=
  match pattern with
  | [] => true
  | p :: pattern' =>
      match cs with
      | c :: cs' => Ascii.eqb p c && starts pattern' cs'
      | [] => false
      end
  end.

(** [s.endsWith(part)]: read from its end, [s] starts with [part]. *)
Definition endsWith (part s : string) : bool :=
  starts (rev (list_ascii_of_string part)) (rev (list_ascii_of_string s)).

(** [s.split(separator)] for a separator that matches single characters:
    a segment ends at every match. *)
Fixpoint split (separator : ascii -> bool) (s : string) : list string :=
  match s with
  | EmptyString => [""%string]
  | String c rest =>
      if separator c then ""%string :: split separator rest
      else match split separator rest with
           | segment :: segments => String c segment :: segments
           | [] => [String c ""]
           end
  end.

(** [regex.test(s)] for a regular expression that is one character class. *)
Definition test (class : ascii -> bool) (s : string) : bool :=
  existsb class (list_ascii_of_string s).

Definition is_dot (c : ascii) : bool := Ascii.eqb c ".".

(** [s.replace(/^\.+/, "")]: the leading dots are removed. *)
Definition strip_leading_dots (s : string) : string :=
  string_of_list_ascii (drop_while is_dot (list_ascii_of_string s)).

(** [s.replace(/\.[^.]+$/, "")]: the match is the last dot with what
    follows it, when something follows it. *)
Definition strip_last_extension (s : string) : string :=
  let reversed := rev (list_ascii_of_string s) in
  match drop_while (fun c => negb (is_dot c)) reversed with
  | _dot :: before =>
      if (length before + 1 <? length reversed)%nat
      then string_of_list_ascii (rev before)
      else s
  | [] => s
  end.

(** The replacement text of [replace] for a pattern without groups: [$$] is
    a dollar sign, [$&] the match, [$`] what precedes it and [$'] what
    follows it; any other character stands for itself. *)
Fixpoint substitution (matched before after : string) (template : list ascii)
  : string :=
  match template with
  | [] => ""
  | c :: rest =>
      if Ascii.eqb c "$" then
        match rest with
        | d :: rest' =>
            if Ascii.eqb d "$"
            then String "$" (substitution matched before after rest')
            else if Ascii.eqb d "&"
            then (matched ++ substitution matched before after rest')%string
            else if Ascii.eqb d "`"
            then (before ++ substitution matched before after rest')%string
            else if Ascii.eqb d "'"
            then (after ++ substitution matched before after rest')%string
            else String c (substitution matched before after rest)
        | [] => String c ""
        end
      else String c (substitution matched before after rest)
  end.

(** [s.slice(start)]. *)
Definition slice_from (start : nat) (s : string) : string :=
  String.substring start (String.length s - start) s.

(** [a || b] for strings: the empty string is falsy. *)
Definition or_else (a b : string) : string :=
  if String.eqb a "" then b else a.

(** A call either completes with a value or throws an [Error] with a
    message; an awaited promise that rejects throws likewise. *)
Inductive completion (A : Type) : Type :=
| Normal (a : A)
| Throw (message : string).
Arguments Normal {A} a.
Arguments Throw {A} message.

(** [s.replace(/\.bin$/, replacement)]. *)
Definition replace_bin (replacement s : string) : string :=
  if endsWith ".bin" s then
    let before := String.substring 0 (String.length s - 4) s in
    (before ++ substitution ".bin" before "" (list_ascii_of_string replacement))%string
  else s.

End JS.

(** ** The client of the API ([lib/api-client.ts])

    [fetch] is the effect of the client: each function is given the
    response that its request resolves to, the reply of the handler of the
    route. *)

Module ApiClient.

Import JS.

(** The loop of [uint8ArrayToBase64]: each chunk is appended as
    [String.fromCharCode(...Array.from(chunk))]. *)
Fixpoint chunks (fuel : nat) (data : list byte) (offset : nat) (binary : string)
  : string :=
  match fuel with
  | O => binary
  | S fuel' =>
      if (offset <? length data)%nat then
        let chunk := subarray data offset (offset + Encryption.chunkSize) in
        chunks fuel' data (offset + Encryption.chunkSize)
               (binary ++ string_of_list_byte chunk)
      else binary
  end.

Definition uint8ArrayToBase64 (data : list byte) : string :=
  if (length data =? 0)%nat then ""
  else Base64.btoa (chunks (length data) data 0 "").

(** [response.ok]. *)
Definition ok (status : N) : bool := (200 <=? status) && (status <=? 299).



Record ClaimedFile : Type := mkClaimedFile {
  fileName : string;
  fileContent : list byte;
  mimeType : string;
  fileType : string
}.

(** The file name [claimDrop] returns for the name and type of the
    response. *)
Definition cleanFileName (dropId fileName fileType : string) : string :=
  let sanitizedFileType := strip_leading_dots (trim fileType) in
  let normalizedExtension :=
    if String.eqb sanitizedFileType "" then None
    else Some ("." ++ sanitizedFileType)%string in
  let cleanFileName := trim fileName in
  let cleanFileName :=
    if String.eqb cleanFileName ""
    then ("drop-" ++ String.substring 0 12 dropId)%string
    else cleanFileName in
  let cleanFileName :=
    match normalizedExtension with
    | Some normalizedExtension =>
        let extensionLower := toLowerCase normalizedExtension in
        let cleanFileName :=
          if negb (endsWith extensionLower (toLowerCase cleanFileName)) then
            let baseName :=
              if includes "." cleanFileName
              then strip_last_extension cleanFileName
              else cleanFileName in
            (baseName ++ normalizedExtension)%string
          else cleanFileName in
        if endsWith ".bin" cleanFileName
        then replace_bin normalizedExtension cleanFileName
        else cleanFileName
    | None =>
        if endsWith ".bin" cleanFileName
        then replace_bin "" cleanFileName
        else cleanFileName
    end in
  if endsWith ".bin" cleanFileName
  then ("drop-" ++ String.substring 0 12 dropId)%string
  else cleanFileName.

(** [claimDrop(dropId, passphrase)], from the response to its
    [POST /api/claim?format=json] on. *)
Definition claimDrop (dropId : string) (response : Claim.json)
  : completion ClaimedFile :=
  match response with
  | Claim.Refused status error code =>
      if ok status then Throw "Failed to claim drop"
      else if status =? 400 then Throw "Invalid passphrase or Drop ID"
      else if status =? 404 then Throw "Drop not found"
      else Throw (or_else error ("Claim failed with status " ++ JS.of_N status))
  | Claim.Claimed fileName fileContent fileType mimeType =>
      (* Convert base64 to Uint8Array *)
      if String.eqb fileContent ""
      then Throw "Failed to decode file content from base64"
      else
        match Base64.atob fileContent with
        | None => Throw "Failed to decode file content from base64"
        | Some binary =>
            Normal (mkClaimedFile (cleanFileName dropId fileName fileType)
                                  (Encryption.char_codes binary) mimeType
                                  (strip_leading_dots (trim fileType)))
        end
  end.

End ApiClient.

(** ** The schemas of the routes

    Fastify validates the body of a request against the schema of its route
    before the handler runs: [file], [dropId] and [passphrase] are strings
    with [minLength: 1]. *)

Module Schema.

Definition minLength (n : nat) (s : string) : bool := (n <=? String.length s)%nat.

Definition uploadSchema (file : string) : bool := minLength 1 file.


End Schema.

(** ** [routes/status.route.ts]

    The handler of [GET /api/status/:dropId], from the result of
    [blockdagService.getDrop] on. (The explorer URL of the reply, which is
    read from the environment, is left out.) *)

Module Status.

(** [DropMetadata] of [claim.types.ts]. *)
Record DropMetadata : Type := mkDropMetadata {
  ipfsHash : string;
  encryptedSymKey : string;
  owner : string;
  createdAt : N;
  isActive : bool;
  claimed : bool
}.

Inductive reply : Type :=
| Found (dropId ipfsHash owner : string) (isActive claimed : bool) (createdAt : N)
        (message : string)                                           (* 200 *)
| Failed (status : N) (error code : string).

Definition handler (dropId : string) (dropResult : AsyncResult DropMetadata)
  : reply :=
  match dropResult with
  | Failure _ => Failed 404 "Drop not found" "DROP_NOT_FOUND"
  | Success drop =>
      Found dropId (ipfsHash drop) (owner drop) (isActive drop) (claimed drop)
            (createdAt drop)
            (if claimed drop then "Drop already claimed"
             else if isActive drop then "Drop available for claim"
             else "Drop deactivated")
  end.

End Status.

(** [getDropStatus] of the client, from the response to its
    [GET /api/status/:dropId] on. (The three dates of the status, which are
    formatted from [createdAt] and the clock, are left out.) *)

Module DropStatus.

Import JS.

Inductive status : Type := pending | active | claimed | expired | burned.

Record DropStatus : Type := mkDropStatus {
  txHash : string;
  state : status;
  ipfsHash : option string;
  filename : option string;
  claimCount : N
}.

Definition getDropStatus (dropId : string) (response : Status.reply)
  : completion DropStatus :=
  match response with
  | Status.Failed status error code =>
      if ApiClient.ok status then Throw "Failed to get drop status"
      else if status =? 404
      then Normal (mkDropStatus "" expired None None 0)   (* Drop doesn't exist *)
      else Throw (or_else error ("Status check failed with status " ++ JS.of_N status))
  | Status.Found _ ipfsHash _ _ is_claimed _ _ =>
      (* the reply has no [exists] field: [data.exists !== false] *)
      let exists_ := true in
      let statusValue :=
        if negb exists_ then expired
        else if is_claimed then claimed
        else active in
      Normal (mkDropStatus dropId statusValue (Some ipfsHash)
                (if exists_
                 then Some ("drop-" ++ String.substring 0 8 dropId ++ ".bin")%string
                 else None)
                (if is_claimed then 1 else 0))
  end.

End DropStatus.

(** ** [lib/utils.ts]

    On strings of code units below 256, as the methods of [JS]. *)

Module Utils.

Definition is_lower (c : ascii) : bool :=
  let n := N_of_ascii c in (97 <=? n) && (n <=? 122).

Definition is_upper (c : ascii) : bool :=
  let n := N_of_ascii c in (65 <=? n) && (n <=? 90).

Definition is_digit (c : ascii) : bool :=
  let n := N_of_ascii c in (48 <=? n) && (n <=? 57).

(** [[^a-zA-Z0-9]]. *)
Definition is_other (c : ascii) : bool :=
  negb (is_lower c || is_upper c || is_digit c).

(** [[-_\s]]. *)
Definition is_separator (c : ascii) : bool :=
  Ascii.eqb c "-" || Ascii.eqb c "_" || JS.is_white_space c.

(** "Calculate passphrase strength (0-100)". *)
Definition calculatePassphraseStrength (passphrase : string) : N :=
  if String.eqb passphrase "" then 0
  else
    let strength := 0 in
    (* Length bonus *)
    let strength := strength + N.min (N.of_nat (String.length passphrase) * 2) 40 in
    (* Character variety *)
    let strength := if JS.test is_lower passphrase then strength + 10 else strength in
    let strength := if JS.test is_upper passphrase then strength + 10 else strength in
    let strength := if JS.test is_digit passphrase then strength + 10 else strength in
    let strength := if JS.test is_other passphrase then strength + 10 else strength in
    (* Multiple word/segment bonus *)
    let segments := JS.split is_separator passphrase in
    let strength := if (4 <=? length segments)%nat then strength + 20 else strength in
    N.min strength 100.

(** "Truncate text with ellipsis", for a natural [length]. *)
Definition truncate (str : string) (length : nat) : string :=
  if (String.length str <=? length)%nat then str
  else (String.substring 0 length str ++ "...")%string.

(** "Validate passphrase format". *)
Definition isValidPassphrase (passphrase : string) : bool :=
  (8 <=? String.length passphrase)%nat.

End Utils.

(** ** The input checks of the pages

    [handleClaim] of the receiver page goes on to claim when the passphrase
    is valid and the drop identifier is not blank; [handleSearch] of the
    status page goes on to ask for the status when the drop identifier has
    at least 10 characters. *)

Module ReceiverPage.

Definition accepts (passphrase dropId : string) : bool :=
  Utils.isValidPassphrase passphrase && negb (String.eqb (JS.trim dropId) "").

End ReceiverPage.

Module StatusPage.

Definition accepts (dropId : string) : bool :=
  negb (String.eqb dropId "" || (String.length dropId <? 10)%nat).

End StatusPage.

(** ** [config/app.config.ts]

    The part of the configuration that [validateConfig] reads, as a
    function of the environment. *)

Module Config.

Record Env : Type := mkEnv {
  BLOCKDAG_RPC_URL : option string;
  BLOCKDAG_CONTRACT_ADDRESS : option string;
  QUANTUM_DROP_CONTRACT_ADDRESS : option string;
  BLOCKDAG_PRIVATE_KEY : option string
}.

(** [process.env.X || fallback]: a variable that is not set or is empty
    gives the fallback. *)
Definition or_else (value : option string) (fallback : string) : string :=
  match value with
  | Some v => JS.or_else v fallback
  | None => fallback
  end.

Record BlockDAGConfig : Type := mkBlockDAGConfig {
  rpcUrl : string;
  contractAddress : string;
  privateKey : string
}.

Definition config (env : Env) : BlockDAGConfig :=
  mkBlockDAGConfig
    (or_else (BLOCKDAG_RPC_URL env) "https://rpc-testnet.bdagscan.com")
    (or_else (BLOCKDAG_CONTRACT_ADDRESS env)
       (or_else (QUANTUM_DROP_CONTRACT_ADDRESS env) ""))
    (or_else (BLOCKDAG_PRIVATE_KEY env) "").

(** The [errors] that [validateConfig] collects. *)
Definition errors (blockdag : BlockDAGConfig) : list string :=
  let errors := [] in
  let errors :=
    if String.eqb (contractAddress blockdag) ""
    then errors ++ ["BLOCKDAG_CONTRACT_ADDRESS (or QUANTUM_DROP_CONTRACT_ADDRESS) is required"%string]
    else errors in
  let privateKey := privateKey blockdag in
  let errors :=
    if String.eqb privateKey ""
    then errors ++ ["BLOCKDAG_PRIVATE_KEY is required and must be valid"%string]
    else
      let normalizedKey :=
        if startsWith "0x" privateKey then JS.slice_from 2 privateKey
        else privateKey in
      if negb (String.length normalizedKey =? 64)%nat
      then errors ++ ["BLOCKDAG_PRIVATE_KEY must be a 32-byte hex string"%string]
      else errors in
  let errors :=
    if String.eqb (rpcUrl blockdag) ""
    then errors ++ ["BLOCKDAG_RPC_URL is required"%string]
    else errors in
  errors.

Definition newline : string := String "010" "".

Definition validateConfig (blockdag : BlockDAGConfig) : JS.completion unit :=
  let errors := errors blockdag in
  if (0 <? length errors)%nat
  then JS.Throw ("Configuration validation failed:" ++ newline
                   ++ Upload.join newline errors)
  else JS.Normal tt.

End Config.

(** ** The first drop contract

    [contract QuantumDrop] (Solidity). A call is made by [msg.sender] at
    [block.timestamp]; it returns, or reverts with a reason and leaves the
    storage as it was. A key that was never written reads as the zero
    value. *)

Module QuantumDrop.

Import Contract.

Definition address : Type := N.

Record Drop : Type := mkDrop {
  ipfsHash : string;
  owner : address;
  expiresAt : N;
  isActive : bool
}.

Inductive Event : Type :=
| DropCreated (dropId ipfsHash : string) (owner : address) (expiresAt : N)
| DropClaimed (dropId : string) (claimer : address)
| DropDeactivated (dropId : string) (owner : address).

Record Storage : Type := mkStorage {
  drops : gmap string Drop;                    (* [mapping(string => Drop)] *)
  claimed : gmap (string * address) bool;      (* [mapping(string => mapping(address => bool))] *)
  events : list Event                          (* the log *)
}.

Record Msg : Type := mkMsg {
  sender : address;      (* [msg.sender] *)
  timestamp : N          (* [block.timestamp] *)
}.

(** [drops[dropId]] and [claimed[dropId][claimer]]. *)
Definition drop_at (s : Storage) (dropId : string) : Drop :=
  default (mkDrop "" 0 0 false) (drops s !! dropId).

Definition claimed_at (s : Storage) (dropId : string) (claimer : address) : bool :=
  default false (claimed s !! (dropId, claimer)).

(** [require(condition, reason)]: the call goes on when the condition
    holds and reverts with the reason otherwise. *)
Definition require {A} (condition : bool) (reason : string) (s : Storage)
    (rest : call A * Storage) : call A * Storage :=
  if condition then rest else (Reverted reason, s).

Definition createDrop (msg : Msg) (dropId ipfsHash : string) (expiresAt : N)
    (s : Storage) : call unit * Storage :=
  require (0 <? String.length dropId)%nat "Drop ID required" s (
  require (0 <? String.length ipfsHash)%nat "IPFS hash required" s (
  require (owner (drop_at s dropId) =? 0) "Drop exists" s (
  require (timestamp msg <? expiresAt) "Expiry in past" s
    (Returned tt,
     mkStorage (<[dropId := mkDrop ipfsHash (sender msg) expiresAt true]> (drops s))
               (claimed s)
               (events s ++ [DropCreated dropId ipfsHash (sender msg) expiresAt]))))).

Definition getDrop (dropId : string) (s : Storage) : call Drop * Storage :=
  let drop := drop_at s dropId in
  require (negb (owner drop =? 0)) "Drop missing" s
    (Returned drop, s).

Definition claimDrop (msg : Msg) (dropId : string) (s : Storage)
  : call unit * Storage :=
  let drop := drop_at s dropId in
  require (negb (owner drop =? 0)) "Drop missing" s (
  require (isActive drop) "Drop inactive" s (
  require (timestamp msg <? expiresAt drop) "Drop expired" s (
  require (negb (claimed_at s dropId (sender msg))) "Already claimed" s
    (Returned tt,
     mkStorage (drops s)
               (<[(dropId, sender msg) := true]> (claimed s))
               (events s ++ [DropClaimed dropId (sender msg)]))))).

Definition hasClaimed (dropId : string) (claimer : address) (s : Storage) : bool :=
  claimed_at s dropId claimer.

Definition deactivateDrop (msg : Msg) (dropId : string) (s : Storage)
  : call unit * Storage :=
  let drop := drop_at s dropId in
  require (owner drop =? sender msg) "Not owner" s (
  require (isActive drop) "Already inactive" s
    (Returned tt,
     mkStorage (<[dropId := mkDrop (ipfsHash drop) (owner drop) (expiresAt drop) false]>
                  (drops s))
               (claimed s)
               (events s ++ [DropDeactivated dropId (sender msg)]))).

Definition isValidDrop (msg : Msg) (dropId : string) (s : Storage) : bool :=
  let drop := drop_at s dropId in
  negb (owner drop =? 0) && isActive drop && (timestamp msg <? expiresAt drop).

(** The transactions of the contract, and the storage after a sequence of
    them. *)
Inductive Call : Type :=
| CreateDrop (dropId ipfsHash : string) (expiresAt : N)
| ClaimDrop (dropId : string)
| DeactivateDrop (dropId : string).

Definition exec (msg : Msg) (c : Call) (s : Storage) : Storage :=
  match c with
  | CreateDrop dropId ipfsHash expiresAt => snd (createDrop msg dropId ipfsHash expiresAt s)
  | ClaimDrop dropId => snd (claimDrop msg dropId s)
  | DeactivateDrop dropId => snd (deactivateDrop msg dropId s)
  end.

Fixpoint run (txs : list (Msg * Call)) (s : Storage) : Storage :=
  match txs with
  | [] => s
  | (msg, c) :: txs' => run txs' (exec msg c s)
  end.

(** The storage of the contract when it is deployed. *)
Definition deployed : Storage := mkStorage ∅ ∅ [].

End QuantumDrop.

(** * The vocabulary of the statements *)

(** ** Test vectors *)

(** The bytes of a hexadecimal text ([[]] if it is not one), and the
    ciphertext and tag of an encryption in hexadecimal. *)
Definition unhex (hex : string) : list byte :=
  match Hex.hexToBytes hex with
  | Some bytes => bytes
  | None => []
  end.

Definition sealed_hex (r : Crypto.outcome (list byte * list byte))
  : option (string * string) :=
  match r with
  | Crypto.Returns (ciphertext, tag) =>
      Some (Hex.bytesToHex ciphertext, Hex.bytesToHex tag)
  | Crypto.Throws _ => None
  end.

(** ** Drops held by a world *)

(** The identifier [Upload.createDrop] will draw: the four bytes that follow
    the file key (32) and the two nonces (12 each). *)
Definition drawn_dropId (w : World) : string :=
  Hex.bytesToHex (peek (advance w 56) 4).

(** [holds_drop w dropId passphrase symmetricKey file]: the ledger of [w]
    holds an active drop [dropId] committed to [passphrase], whose key
    envelope opens under that passphrase to [symmetricKey], and the gateway
    serves [file] for it. *)
Definition holds_drop (w : World) (dropId passphrase : string)
    (symmetricKey file : list byte) : Prop :=
  exists d,
    drops w !! dropId = Some d /\
    drop_isActive d = true /\
    drop_passphraseHash d = ("0x" ++ Upload.passphraseHash passphrase)%string /\
    String.eqb (drop_encryptedSymKey d) "" = false /\
    Claim.decryptSymmetricKey (drop_encryptedSymKey d) passphrase
      = Crypto.Returns symmetricKey /\
    pins w !! drop_ipfsHash d = Some file.

(** The record of a drop after one more claim. *)
Definition claimed_once (d : Drop) : Drop :=
  mkDrop (drop_ipfsHash d) (drop_encryptedSymKey d) (drop_passphraseHash d)
         (drop_isActive d) (drop_claimCount d + 1).

(** ** The passphrase generator *)

(** The word a byte selects: [words[byte % words.length]]. *)
Definition word_of_byte (b : byte) : string :=
  nth (Byte.to_nat b mod 18) Upload.words "".

(** The 256 bytes, each once. *)
Definition all_bytes : list byte := map Bytes.of_N (map N.of_nat (seq 0 256)).

(** What [pick_word] pushes when [randomBytes] returns a given byte, and the
    number of bytes that make it push a given word: out of 256, the chance
    of the word under a uniform byte. *)
Definition pushed (b : byte) : list string :=
  fst (Upload.pick_word [] (mkWorld (fun _ => b) 0 ∅ ∅ (fun _ => ""))).

Definition weight (word : string) : nat :=
  length (List.filter (fun b => bool_decide (pushed b = [word])) all_bytes).

(** The passphrase with a given number: the digits of the number in base 18
    are the indices of its words. *)
Fixpoint words_of_code (count : nat) (n : N) : list string :=
  match count with
  | O => []
  | S count' =>
      nth (N.to_nat (n mod 18)) Upload.words "" :: words_of_code count' (n / 18)
  end.

Definition nth_passphrase (n : N) : string :=
  Upload.join "-" (words_of_code 6 n).

(** The number of the passphrase that a sequence of bytes selects. *)
Fixpoint code_of_bytes (bs : list byte) : N :=
  match bs with
  | [] => 0
  | b :: rest => N.of_nat (Byte.to_nat b mod 18) + 18 * code_of_bytes rest
  end.

(** ** The commitment and the KEK *)

(** Unwrapping a key envelope with a given KEK: what [decryptSymmetricKey]
    does once the KEK is derived. *)
Definition unwrap (kek : list byte) (encryptedSymKey : string)
  : Crypto.outcome (list byte) :=
  let '(nonce, tag, ciphertext) := Claim.unpack (Base64.from_base64 encryptedSymKey) in
  Crypto.aes_256_gcm_decrypt kek nonce tag ciphertext.

(** Opening a drop from what the ledger and the gateway show to everyone:
    the record of the drop (the commitment after its [0x], the key
    envelope) and the pinned content; no passphrase. *)
Definition open_from_public_record (w : World) (dropId : string)
  : option (list byte) :=
  match drops w !! dropId with
  | None => None
  | Some d =>
      match Hex.hexToBytes (String.substring 2 64 (drop_passphraseHash d)),
            pins w !! drop_ipfsHash d with
      | Some kek, Some encryptedFile =>
          match unwrap kek (drop_encryptedSymKey d) with
          | Crypto.Returns symmetricKey =>
              match Claim.decryptFile encryptedFile symmetricKey with
              | Crypto.Returns decryptedFile => Some decryptedFile
              | Crypto.Throws _ => None
              end
          | Crypto.Throws _ => None
          end
      | _, _ => None
      end
  end.

(** ** Tampering *)


(** The world with the pinned content of [cid] changed by [f]. *)
Definition tamper_file (cid : string) (f : list byte -> list byte) (w : World)
  : World :=
  mkWorld (entropy w) (drawn w) (drops w) (alter f cid (pins w)) (cid_of w).


(** ** Counting passphrases and digests *)



(** ** A drop to run the routes on

    The scenario of the specification: the plaintext [hello world] under the
    passphrase [quantum-secure-drop-anonymous-encrypted-blockdag], created
    in a world with an empty ledger and an empty gateway. *)

Definition demo_world : World :=
  mkWorld (fun i => Bytes.of_N (N.of_nat (37 * i + 11))) 0 ∅ ∅
          (fun content =>
             ("Qm" ++ Hex.bytesToHex (take 8 (Keccak.keccak_256 content)))%string).

Definition demo_passphrase : string :=
  "quantum-secure-drop-anonymous-encrypted-blockdag".

(** [hello world] in base64, as the client sends it. *)
Definition demo_file : string := "aGVsbG8gd29ybGQ=".

Definition demo_dropId : string := drawn_dropId demo_world.

(** The world once the drop is created. *)
Definition demo_stored : World :=
  snd (Upload.createDrop demo_passphrase demo_file demo_world).

(** The scenario's world with its drop deactivated. *)
Definition demo_deactivated : World :=
  let off d := mkDrop (drop_ipfsHash d) (drop_encryptedSymKey d)
                      (drop_passphraseHash d) false (drop_claimCount d) in
  mkWorld (entropy demo_stored) (drawn demo_stored)
          (alter off demo_dropId (drops demo_stored)) (pins demo_stored)
          (cid_of demo_stored).

(** The record of the scenario's drop in a world. *)
Definition demo_drop (w : World) : Drop :=
  match drops w !! demo_dropId with
  | Some d => d
  | None => mkDrop "" "" "" false 0
  end.

(** The CID of the scenario's file envelope, and the content pinned under
    it in a world. *)
Definition demo_cid : string := drop_ipfsHash (demo_drop demo_stored).

Definition demo_pinned (w : World) : list byte :=
  match pins w !! demo_cid with
  | Some data => data
  | None => []
  end.

(** The scenario's file key, its nonce, and the ciphertext and tag of the
    plaintext under them. *)
Definition demo_key : list byte := peek demo_world 32.



(** ** The type of a file *)

(** The comparison of [isTextFile] for [printable] bytes out of [size]. *)
Definition mostly_printable (printable size : N) : bool :=
  Number.gt (Number.div (Number.of_N printable) (Number.of_N size))
            Number.literal_0_85.

(** [f] holds of the [count] naturals from [i] on. *)
Fixpoint all_from (count : nat) (i : N) (f : N -> bool) : bool :=
  match count with
  | O => true
  | S count' => f i && all_from count' (i + 1) f
  end.

(** ** The words of the generator, as the strength meter reads them *)

(** What the strength reads of a word of the list: lower-case letters
    only, and at least three of them. *)
Definition plain_word (word : string) : Prop :=
  (3 <= String.length word)%nat /\
  JS.test Utils.is_lower word = true /\
  JS.test Utils.is_upper word = false /\
  JS.test Utils.is_digit word = false /\
  JS.test Utils.is_other word = false /\
  length (List.filter Utils.is_separator (list_ascii_of_string word)) = 0%nat.

(** ** The log of the first contract *)

(** The claims that a log records: the drop and the claimer of each
    [DropClaimed] event. *)
Fixpoint claims_of (log : list QuantumDrop.Event) : list (string * QuantumDrop.address) :=
  match log with
  | [] => []
  | QuantumDrop.DropClaimed dropId claimer :: log' => (dropId, claimer) :: claims_of log'
  | _ :: log' => claims_of log'
  end.

(** The log and the claims of the storage agree, and a transaction keeps
    them so. *)
Definition log_agrees (s : QuantumDrop.Storage) : Prop :=
  List.NoDup (claims_of (QuantumDrop.events s)) /\
  forall (dropId : string) (claimer : QuantumDrop.address),
    In (dropId, claimer) (claims_of (QuantumDrop.events s)) <-> QuantumDrop.claimed_at s dropId claimer = true.

(** ** Transactions to run the first contract on *)

(** Two accounts. *)
Definition alice : QuantumDrop.address := 0xA11CE.
Definition bob : QuantumDrop.address := 0xB0B.

(** The storage once [alice] has created [drop-1], at time 100 and with
    expiry 200. *)
Definition demo_storage : QuantumDrop.Storage :=
  snd (QuantumDrop.createDrop (QuantumDrop.mkMsg alice 100) "drop-1" "QmHash" 200
         QuantumDrop.deployed).

(** Transactions that aim at [drop-1]: [bob] tries to create it again and to
    deactivate it, and claims it; then [alice] deactivates it. *)
Definition demo_txs : list (QuantumDrop.Msg * QuantumDrop.Call) :=
  [ (QuantumDrop.mkMsg bob 110, QuantumDrop.CreateDrop "drop-1" "QmOther" 300);
    (QuantumDrop.mkMsg bob 120, QuantumDrop.DeactivateDrop "drop-1");
    (QuantumDrop.mkMsg bob 130, QuantumDrop.ClaimDrop "drop-1");
    (QuantumDrop.mkMsg alice 140, QuantumDrop.DeactivateDrop "drop-1") ].

(** The platform primitives are reasoned about through their lemmas only. *)
#[global] Arguments Keccak.keccak_256 : simpl never.
#[global] Arguments Crypto.aes_256_gcm_encrypt : simpl never.
#[global] Arguments Crypto.aes_256_gcm_decrypt : simpl never.
#[global] Arguments Hex.bytesToHex : simpl never.
#[global] Arguments Base64.to_base64 : simpl never.
#[global] Arguments Base64.from_base64 : simpl never.

(** * Facts *)

(** ** Bytes *)

Lemma to_N_lt (b : byte) : Byte.to_N b < 256.
Proof. pose proof (Byte.to_N_bounded b). lia. Qed.

Lemma of_to_N (b : byte) : Bytes.of_N (Byte.to_N b) = b.
Proof.
  unfold Bytes.of_N. rewrite N.mod_small by apply to_N_lt.
  now rewrite Byte.of_to_N.
Qed.

Lemma to_of_N (n : N) : n < 256 -> Byte.to_N (Bytes.of_N n) = n.
Proof.
  intros Hn. unfold Bytes.of_N. rewrite N.mod_small by exact Hn.
  destruct (Byte.of_N n) as [b|] eqn:E.
  - now apply Byte.to_of_N.
  - apply Byte.of_N_None_iff in E. lia.
Qed.

(** A store keeps the low eight bits only. *)
Lemma of_N_mod (n : N) (b : byte) : n mod 256 = Byte.to_N b -> Bytes.of_N n = b.
Proof.
  intros H. unfold Bytes.of_N. rewrite H. now rewrite Byte.of_to_N.
Qed.

Lemma lxor_lt (a b : N) : a < 256 -> b < 256 -> N.lxor a b < 256.
Proof.
  assert (Hlog : forall x, x < 256 -> N.log2 x < 8).
  { intros x Hx. destruct (N.eq_dec x 0) as [->|Hx0]; [reflexivity|].
    apply N.log2_lt_pow2; [lia|exact Hx]. }
  intros Ha Hb.
  destruct (N.eq_dec (N.lxor a b) 0) as [->|Hne]; [lia|].
  apply (proj2 (N.log2_lt_pow2 (N.lxor a b) 8 ltac:(lia))).
  pose proof (N.log2_lxor a b). specialize (Hlog a Ha) as Hla.
  specialize (Hlog b Hb) as Hlb. lia.
Qed.

Lemma xor_involutive (a b : byte) : Bytes.xor (Bytes.xor a b) b = a.
Proof.
  unfold Bytes.xor.
  rewrite to_of_N by (apply lxor_lt; apply to_N_lt).
  rewrite N.lxor_assoc, N.lxor_nilpotent, N.lxor_0_r.
  apply of_to_N.
Qed.

(** ** Base64 *)

(** Lists are taken apart three elements at a time. *)
Lemma list_ind3 {A} (P : list A -> Prop) :
  P [] -> (forall a, P [a]) -> (forall a b, P [a; b]) ->
  (forall a b c l, P l -> P (a :: b :: c :: l)) ->
  forall l, P l.
Proof.
  intros H0 H1 H2 H3.
  assert (H : forall l, P l /\ (forall a, P (a :: l)) /\ (forall a b, P (a :: b :: l))).
  { induction l as [|x l (IH0 & IH1 & IH2)]; [now auto|].
    split; [apply IH1|]. split; [intros; apply IH2|]. intros a b. now apply H3. }
  intros l. apply H.
Qed.

Lemma value_char (n : N) : n < 64 -> Base64.value (Base64.char n) = Some n.
Proof.
  intros H. destruct n as [|p]; [reflexivity|].
  do 6 (try (destruct p as [p|p|]; try reflexivity)); exfalso; lia.
Qed.

Lemma value_url_char (n : N) : n < 64 -> Base64.value_url (Base64.char n) = Some n.
Proof.
  intros H. destruct n as [|p]; [reflexivity|].
  do 6 (try (destruct p as [p|p|]; try reflexivity)); exfalso; lia.
Qed.

Lemma char_no_pad (n : N) : n < 64 -> Base64.is_pad (Base64.char n) = false.
Proof.
  intros H. destruct n as [|p]; [reflexivity|].
  do 6 (try (destruct p as [p|p|]; try reflexivity)); exfalso; lia.
Qed.

Lemma char_no_space (n : N) : n < 64 -> Base64.is_space (Base64.char n) = false.
Proof.
  intros H. destruct n as [|p]; [reflexivity|].
  do 6 (try (destruct p as [p|p|]; try reflexivity)); exfalso; lia.
Qed.

Lemma sextets_lt (l : list byte) : Forall (fun s => s < 64) (Base64.sextets l).
Proof.
  induction l using list_ind3; cbn [Base64.sextets].
  - constructor.
  - pose proof (to_N_lt a). repeat constructor; lia.
  - pose proof (to_N_lt a). pose proof (to_N_lt b). repeat constructor; lia.
  - pose proof (to_N_lt a). pose proof (to_N_lt b). pose proof (to_N_lt c).
    repeat (constructor; [lia|]). exact IHl.
Qed.

(** Regrouping eight-bit bytes into sextets loses nothing. *)
Lemma octets_sextets (l : list byte) : Base64.octets (Base64.sextets l) = l.
Proof.
  induction l using list_ind3; cbn [Base64.sextets Base64.octets].
  - reflexivity.
  - pose proof (to_N_lt a). f_equal. apply of_N_mod. lia.
  - pose proof (to_N_lt a). pose proof (to_N_lt b).
    f_equal; [|f_equal]; apply of_N_mod; lia.
  - pose proof (to_N_lt a). pose proof (to_N_lt b). pose proof (to_N_lt c).
    rewrite IHl. f_equal; [|f_equal; [|f_equal]]; apply of_N_mod; lia.
Qed.

Lemma padding_is_pad (l : list byte) :
  Forall (fun c => Base64.is_pad c = true) (Base64.padding l).
Proof.
  induction l using list_ind3; cbn [Base64.padding]; repeat constructor.
  exact IHl.
Qed.

Lemma node_sextets_digits (ss : list N) (rest : list ascii) :
  Forall (fun s => s < 64) ss ->
  Base64.node_sextets (map Base64.char ss ++ rest) = ss ++ Base64.node_sextets rest.
Proof.
  induction 1 as [|s ss Hs _ IH]; [reflexivity|].
  cbn [map app Base64.node_sextets].
  rewrite (char_no_pad s Hs), (value_url_char s Hs), IH. reflexivity.
Qed.

Lemma node_sextets_padding (l : list byte) :
  Base64.node_sextets (Base64.padding l) = [].
Proof.
  destruct (padding_is_pad l) as [|c cs Hc _]; [reflexivity|].
  cbn [Base64.node_sextets]. now rewrite Hc.
Qed.

(** Node reads back what it wrote: [Buffer.from(buf.toString('base64'),
    'base64')] is [buf]. *)
Lemma from_base64_to_base64 (buf : list byte) :
  Base64.from_base64 (Base64.to_base64 buf) = buf.
Proof.
  unfold Base64.from_base64, Base64.to_base64, Base64.encode.
  rewrite list_ascii_of_string_of_list_ascii.
  rewrite node_sextets_digits by apply sextets_lt.
  rewrite node_sextets_padding, app_nil_r. apply octets_sextets.
Qed.

Lemma encode_no_space (l : list byte) :
  List.filter (fun c => negb (Base64.is_space c)) (Base64.encode l) = Base64.encode l.
Proof.
  unfold Base64.encode.
  assert (Hd : Forall (fun c => Base64.is_space c = false)
                 (map Base64.char (Base64.sextets l) ++ Base64.padding l)).
  { apply List.Forall_app; split.
    - apply List.Forall_map. eapply List.Forall_impl; [|apply sextets_lt].
      intros s Hs. now apply char_no_space.
    - eapply List.Forall_impl; [|apply padding_is_pad].
      intros c Hc. unfold Base64.is_pad in Hc. unfold Base64.is_space.
      apply N.eqb_eq in Hc. now rewrite Hc. }
  induction Hd as [|c cs Hc _ IH]; [reflexivity|].
  cbn [List.filter]. rewrite Hc. cbn [negb]. now rewrite IH.
Qed.

Lemma mod4_S4 (n : nat) : (S (S (S (S n))) mod 4 = n mod 4)%nat.
Proof.
  change (S (S (S (S n)))) with (4 + n)%nat. rewrite Nat.add_comm.
  apply (Nat.Div0.mod_add n 1 4).
Qed.

Lemma encode_length (l : list byte) :
  (length (Base64.encode l) mod 4 = 0)%nat /\
  (length (map Base64.char (Base64.sextets l)) mod 4 <> 1)%nat.
Proof.
  unfold Base64.encode. rewrite length_app, !length_map.
  induction l using list_ind3; cbn [Base64.sextets Base64.padding length].
  - split; [reflexivity|discriminate].
  - split; [reflexivity|discriminate].
  - split; [reflexivity|discriminate].
  - cbn [Nat.add]. now rewrite !mod4_S4.
Qed.

Lemma strip_padding_digits (xs : list ascii) :
  Forall (fun c => Base64.is_pad c = false) xs ->
  Base64.strip_padding xs = xs /\
  Base64.strip_padding (xs ++ [Base64.pad]) = xs /\
  Base64.strip_padding (xs ++ [Base64.pad; Base64.pad]) = xs.
Proof.
  intros Hxs. apply List.Forall_rev in Hxs.
  rewrite <- (rev_involutive xs). revert Hxs. generalize (rev xs) as R.
  intros R HR. unfold Base64.strip_padding.
  rewrite !rev_app_distr, !rev_involutive. cbn [rev app].
  change (Base64.is_pad Base64.pad) with true.
  destruct HR as [|c1 r1 Hc1 [|c2 r2 Hc2 _]]; cbn [app rev];
    rewrite ?Hc1, ?Hc2; repeat split; reflexivity.
Qed.

Lemma values_digits (ss : list N) :
  Forall (fun s => s < 64) ss -> Base64.values (map Base64.char ss) = Some ss.
Proof.
  induction 1 as [|s ss Hs _ IH]; [reflexivity|].
  cbn [map Base64.values]. now rewrite (value_char s Hs), IH.
Qed.

Lemma padding_cases (l : list byte) :
  Base64.padding l = [] \/ Base64.padding l = [Base64.pad] \/
  Base64.padding l = [Base64.pad; Base64.pad].
Proof. induction l using list_ind3; cbn [Base64.padding]; auto. Qed.

Lemma strip_padding_encode (l : list byte) :
  Base64.strip_padding (Base64.encode l) = map Base64.char (Base64.sextets l).
Proof.
  assert (Hd : Forall (fun c => Base64.is_pad c = false)
                 (map Base64.char (Base64.sextets l))).
  { apply List.Forall_map. eapply List.Forall_impl; [|apply sextets_lt].
    intros s Hs. now apply char_no_pad. }
  destruct (strip_padding_digits _ Hd) as (H0 & H1 & H2).
  unfold Base64.encode. revert H0 H1 H2.
  generalize (map Base64.char (Base64.sextets l)) as ds. intros ds H0 H1 H2.
  destruct (padding_cases l) as [-> | [-> | ->]]; [now rewrite app_nil_r|assumption|assumption].
Qed.

(** [atob] undoes [btoa] on every binary string. *)
Lemma atob_btoa (binary : string) : Base64.atob (Base64.btoa binary) = Some binary.
Proof.
  unfold Base64.atob, Base64.btoa.
  rewrite list_ascii_of_string_of_list_ascii, encode_no_space.
  destruct (encode_length (list_byte_of_string binary)) as [H4 H1].
  rewrite H4. cbn [Nat.eqb]. rewrite strip_padding_encode.
  apply Nat.eqb_neq in H1. rewrite H1.
  rewrite values_digits by apply sextets_lt.
  now rewrite octets_sextets, string_of_list_byte_of_string.
Qed.

(** ** [arrayToBase64] and [base64ToArray] *)

Lemma append_cons (c : ascii) (s t : string) :
  (String c s ++ t)%string = String c (s ++ t)%string.
Proof. reflexivity. Qed.

Lemma string_of_list_byte_app (a b : list byte) :
  string_of_list_byte (a ++ b) = (string_of_list_byte a ++ string_of_list_byte b)%string.
Proof.
  unfold string_of_list_byte. induction a as [|x a IH]; [reflexivity|].
  cbn [app map string_of_list_ascii]. now rewrite append_cons, IH.
Qed.

Lemma string_app_empty_r (s : string) : (s ++ "")%string = s.
Proof. induction s as [|c s IH]; [reflexivity|]. now rewrite append_cons, IH. Qed.

Lemma string_app_assoc (a b c : string) :
  ((a ++ b) ++ c)%string = (a ++ (b ++ c))%string.
Proof. induction a as [|x a IH]; [reflexivity|]. now rewrite !append_cons, IH. Qed.

Lemma chunk_string_spec (chunk : list byte) (acc : string) :
  Encryption.chunk_string chunk acc = (acc ++ string_of_list_byte chunk)%string.
Proof.
  revert acc. induction chunk as [|b chunk IH]; intros acc.
  - cbn [Encryption.chunk_string]. symmetry. apply string_app_empty_r.
  - cbn [Encryption.chunk_string]. rewrite IH, string_app_assoc. reflexivity.
Qed.

(** The loop invariant: [binary] holds the bytes before [offset]. With a
    positive chunk size and enough iterations left to reach the end of the
    array, the loop ends with the whole array. *)
Lemma chunk_loop_spec (size fuel : nat) (array : list byte) :
  (0 < size)%nat ->
  forall (offset : nat) (binary : string),
  (length array <= offset + fuel * size)%nat ->
  binary = string_of_list_byte (take offset array) ->
  Encryption.chunk_loop size fuel array offset binary = string_of_list_byte array.
Proof.
  intros Hsize. induction fuel as [|fuel IH]; intros offset binary Hfuel ->.
  - cbn [Encryption.chunk_loop]. now rewrite take_ge by lia.
  - cbn [Encryption.chunk_loop].
    destruct (offset <? length array)%nat eqn:E.
    + apply IH; [lia|].
      rewrite chunk_string_spec. change ("" ++ ?x)%string with x.
      rewrite <- string_of_list_byte_app. f_equal.
      unfold subarray. replace (offset + size - offset)%nat with size by lia.
      apply take_take_drop.
    + apply Nat.ltb_ge in E. now rewrite take_ge by lia.
Qed.

Lemma chunk_loop_binary (array : list byte) :
  Encryption.chunk_loop Encryption.chunkSize (length array) array 0 "" =
  string_of_list_byte array.
Proof.
  apply chunk_loop_spec.
  - unfold Encryption.chunkSize. lia.
  - unfold Encryption.chunkSize. nia.
  - reflexivity.
Qed.

Lemma char_codes_spec (l : list byte) :
  Encryption.char_codes (string_of_list_byte l) = l.
Proof.
  unfold string_of_list_byte. induction l as [|b l IH]; [reflexivity|].
  cbn [map string_of_list_ascii Encryption.char_codes].
  now rewrite byte_of_ascii_of_byte, IH.
Qed.

(** C10. Decoding the base64 text of [arrayToBase64] gives the array back:
    [base64ToArray(arrayToBase64(a)) == a] for every byte array [a], the
    empty one and those longer than the [0x8000]-byte chunk included. *)
Theorem base64ToArray_arrayToBase64 (a : list byte) :
  Encryption.base64ToArray (Encryption.arrayToBase64 a) = Some a.
Proof.
  unfold Encryption.base64ToArray, Encryption.arrayToBase64.
  rewrite chunk_loop_binary, atob_btoa. f_equal. apply char_codes_spec.
Qed.

(** ** Hexadecimal text *)

Lemma digit_value_digit (n : N) :
  n < 16 -> Hex.digit_value (Hex.digit n) = Some n.
Proof.
  intros H. destruct n as [|p]; [reflexivity|].
  do 4 (try (destruct p as [p|p|]; try reflexivity)); exfalso; lia.
Qed.

(** No hexadecimal digit is the letter [x]. *)
Lemma digit_not_x (n : N) : n < 16 -> Ascii.eqb (Hex.digit n) "x" = false.
Proof.
  intros H. destruct n as [|p]; [reflexivity|].
  do 4 (try (destruct p as [p|p|]; try reflexivity)); exfalso; lia.
Qed.

Lemma hex_bytes_hex_chars (bytes : list byte) :
  Hex.hex_bytes (Hex.hex_chars bytes) = Some bytes.
Proof.
  induction bytes as [|b bytes IH]; [reflexivity|].
  pose proof (to_N_lt b) as Hb.
  cbn [Hex.hex_chars Hex.hex_bytes].
  rewrite !digit_value_digit by lia. rewrite IH.
  do 2 f_equal. apply of_N_mod. lia.
Qed.

(** Reading the digits back gives the bytes. *)
Lemma hexToBytes_bytesToHex (bytes : list byte) :
  Hex.hexToBytes (Hex.bytesToHex bytes) = Some bytes.
Proof.
  unfold Hex.hexToBytes, Hex.bytesToHex.
  rewrite list_ascii_of_string_of_list_ascii. apply hex_bytes_hex_chars.
Qed.

Lemma bytesToHex_inj (a b : list byte) :
  Hex.bytesToHex a = Hex.bytesToHex b -> a = b.
Proof.
  intros H. apply (f_equal Hex.hexToBytes) in H.
  rewrite !hexToBytes_bytesToHex in H. now injection H.
Qed.

(** ** Keccak-256 *)

(** The digests of the empty message and of [abc]. *)
Example keccak_256_empty :
  Hex.bytesToHex (Keccak.keccak_256 [])
  = "c5d2460186f7233c927e7db2dcc703c0e500b653ca82273b7bfad8045d85a470".
Proof. vm_compute. reflexivity. Qed.

Example keccak_256_abc :
  Hex.bytesToHex (Keccak.keccak_256 (utf8 "abc"))
  = "4e03657aea45a94fc7d47ba826c8d667c0d1e6e33a64a036ec44f58fa12d6c45".
Proof. vm_compute. reflexivity. Qed.

Lemma keccak_256_length (message : list byte) :
  length (Keccak.keccak_256 message) = 32%nat.
Proof. unfold Keccak.keccak_256. cbv zeta. now rewrite length_map, length_seq. Qed.

(** ** AES-256-GCM *)

(** FIPS 197, appendix C.3. *)
Example aes_256_fips_197 :
  AES.cipher
    (AES.key_schedule (map Byte.to_N
       (unhex "000102030405060708090a0b0c0d0e0f101112131415161718191a1b1c1d1e1f")))
    (map Byte.to_N (unhex "00112233445566778899aabbccddeeff"))
  = map Byte.to_N (unhex "8ea2b7ca516745bfeafc49904b496089").
Proof. vm_compute. reflexivity. Qed.

(** The AES-256 test cases without additional data of the GCM
    specification (13, 14 and 15). *)
Example gcm_test_case_13 :
  sealed_hex (Crypto.aes_256_gcm_encrypt (repeat x00 32) (repeat x00 12) [])
  = Some (EmptyString, "530f8afbc74536b9a963b4f1c4cb738b").
Proof. vm_compute. reflexivity. Qed.

Example gcm_test_case_14 :
  sealed_hex (Crypto.aes_256_gcm_encrypt (repeat x00 32) (repeat x00 12)
                (repeat x00 16))
  = Some ("cea7403d4d606b6e074ec5d3baf39d18", "d0d1c8a799996bf0265b98b5d48ab919").
Proof. vm_compute. reflexivity. Qed.

Example gcm_test_case_15 :
  sealed_hex
    (Crypto.aes_256_gcm_encrypt
       (unhex "feffe9928665731c6d6a8f9467308308feffe9928665731c6d6a8f9467308308")
       (unhex "cafebabefacedbaddecaf888")
       (unhex ("d9313225f88406e5a55909c5aff5269a86a7a9531534f7da2e4c303d8a318a72"
               ++ "1c3c0c95956809532fcf0e2449a6b525b16aedf5aa0de657ba637b391aafd255")))
  = Some (("522dc1f099567d07f47f37a32a84427d643a8cdcbfe5c0c97598a2bd2555d1aa"
           ++ "8cb08e48590dbb3da7b08b1056828838c5f61e6393ba7a0abcc9f662898015ad")%string,
          "b094dac5d93471bdec1a502270e3cc6c").
Proof. vm_compute. reflexivity. Qed.

(** A 20-byte IV takes the GHASH path of [J0]; an 8-byte tag is read as the
    leading part of the tag. *)
Example gcm_long_iv_short_tag :
  Crypto.aes_256_gcm_decrypt
    (unhex "5a3df89da7bf23d71ec63f111d9171c3f05047380a17812f20248e63cfded4fb")
    (unhex "4c1dc1f491eb4e4e3e5e34a36df4fd84932bb09a")
    (unhex "6dabe772e4333150")
    (unhex ("cb50f9324cba140f4612a8e295562ac916eb91194847c7361efaa2ee19356535"
            ++ "991b43098a6df5ea"))
  = Crypto.Returns
      (unhex ("9b85c0828dcfbc883726fc200c987baa9826da6ba6a358643a69a52d8698d72e"
              ++ "9b85c0828dcfbc88")).
Proof. vm_compute. reflexivity. Qed.

Lemma bytes_of_block_length (x : N) : length (GCM.bytes_of_block x) = 16%nat.
Proof. unfold GCM.bytes_of_block. now rewrite length_map, length_seq. Qed.

Lemma blocks_count_covers (n : nat) : (n <= 16 * GCM.blocks_count n)%nat.
Proof.
  unfold GCM.blocks_count.
  pose proof (Nat.div_mod_eq (n + 15) 16) as E.
  pose proof (Nat.mod_upper_bound (n + 15) 16 ltac:(discriminate)) as U.
  revert E U. generalize ((n + 15) / 16)%nat ((n + 15) mod 16)%nat.
  intros q r E U. lia.
Qed.

Lemma keystream_length (rks : list (list N)) (j0 : N) (n : nat) :
  length (GCM.keystream rks j0 n) = (16 * GCM.blocks_count n)%nat.
Proof.
  unfold GCM.keystream.
  assert (H : forall js : list nat,
             length (flat_map (fun j => GCM.bytes_of_block
                        (GCM.encrypt_block rks (GCM.counter j0 (N.of_nat (S j))))) js)
             = (16 * length js)%nat).
  { induction js as [|j js IH]; [reflexivity|].
    cbn [flat_map]. rewrite length_app, bytes_of_block_length, IH.
    cbn [length]. lia. }
  now rewrite H, length_seq.
Qed.

Lemma gctr_length (rks : list (list N)) (j0 : N) (data : list byte) :
  length (GCM.gctr rks j0 data) = length data.
Proof.
  unfold GCM.gctr. apply length_zip_with_l.
  rewrite keystream_length. apply blocks_count_covers.
Qed.

Lemma zip_xor_involutive (data : list byte) (ks : list N) :
  (length data <= length ks)%nat ->
  zip_with (fun b k => Bytes.xor b (Bytes.of_N k))
           (zip_with (fun b k => Bytes.xor b (Bytes.of_N k)) data ks) ks = data.
Proof.
  revert ks. induction data as [|b data IH]; intros [|k ks] H;
    cbn [zip_with length] in *; try reflexivity; try lia.
  rewrite xor_involutive, IH by lia. reflexivity.
Qed.

(** Counter mode is its own inverse. *)
Lemma gctr_involutive (rks : list (list N)) (j0 : N) (data : list byte) :
  GCM.gctr rks j0 (GCM.gctr rks j0 data) = data.
Proof.
  unfold GCM.gctr at 1. rewrite gctr_length. unfold GCM.gctr.
  apply zip_xor_involutive.
  rewrite keystream_length. apply blocks_count_covers.
Qed.

Lemma tag_length (rks : list (list N)) (H j0 : N) (ciphertext : list byte) :
  length (GCM.tag rks H j0 ciphertext) = 16%nat.
Proof. unfold GCM.tag. cbv zeta. now rewrite length_map, bytes_of_block_length. Qed.

(** What [createCipheriv] wrote, [createDecipheriv] reads back: with the key,
    the IV and the tag of an encryption, the decipher returns the data. *)
Lemma aes_256_gcm_decrypt_encrypt (key iv data ciphertext authTag : list byte) :
  Crypto.aes_256_gcm_encrypt key iv data = Crypto.Returns (ciphertext, authTag) ->
  Crypto.aes_256_gcm_decrypt key iv authTag ciphertext = Crypto.Returns data.
Proof.
  unfold Crypto.aes_256_gcm_encrypt, Crypto.aes_256_gcm_decrypt.
  destruct (negb (length key =? 32)%nat); [discriminate|].
  destruct (length iv =? 0)%nat; [discriminate|].
  cbv zeta. intros [= <- <-].
  rewrite tag_length. change (Crypto.valid_tag_length 16) with true. cbn [negb].
  rewrite gctr_involutive.
  rewrite take_ge by (rewrite tag_length; lia).
  now destruct (decide _).
Qed.

(** Encryption succeeds exactly for a 32-byte key and a non-empty IV, with
    a ciphertext as long as the data and a 16-byte tag. *)
Lemma aes_256_gcm_encrypt_returns (key iv data : list byte) :
  length key = 32%nat -> length iv <> 0%nat ->
  exists ciphertext authTag,
    Crypto.aes_256_gcm_encrypt key iv data = Crypto.Returns (ciphertext, authTag) /\
    length ciphertext = length data /\ length authTag = 16%nat.
Proof.
  intros Hk Hiv. unfold Crypto.aes_256_gcm_encrypt.
  rewrite Hk. cbn [Nat.eqb negb].
  apply Nat.eqb_neq in Hiv. rewrite Hiv. cbv zeta.
  eexists _, _. split; [reflexivity|]. split; [apply gctr_length|apply tag_length].
Qed.

(** ** Envelopes *)

(** The three views of [nonce || tag || ciphertext]. *)
Lemma slices_of_concat (nonce tag ciphertext : list byte) :
  length nonce = 12%nat -> length tag = 16%nat ->
  subarray (nonce ++ tag ++ ciphertext) 0 12 = nonce /\
  subarray (nonce ++ tag ++ ciphertext) 12 28 = tag /\
  subarray_from (nonce ++ tag ++ ciphertext) 28 = ciphertext.
Proof.
  intros Hn Ht. unfold subarray, subarray_from.
  change (12 - 0)%nat with 12%nat. change (28 - 12)%nat with 16%nat.
  change (drop 0 (nonce ++ tag ++ ciphertext)) with (nonce ++ tag ++ ciphertext).
  repeat split.
  - now apply take_app_length'.
  - rewrite (drop_app_length' nonce _ 12 (eq_sym Hn)). now apply take_app_length'.
  - change 28%nat with (12 + 16)%nat. rewrite <- drop_drop.
    rewrite (drop_app_length' nonce _ 12 (eq_sym Hn)). now apply drop_app_length'.
Qed.



(** Both decrypt functions hand the three views to the decipher. *)
Lemma decryptFile_unpack (encryptedFile symmetricKey : list byte) :
  Claim.decryptFile encryptedFile symmetricKey =
  let '(nonce, tag, ciphertext) := Claim.unpack encryptedFile in
  Crypto.aes_256_gcm_decrypt symmetricKey nonce tag ciphertext.
Proof. reflexivity. Qed.

Lemma decryptSymmetricKey_unpack (encryptedSymKey passphrase : string) :
  Claim.decryptSymmetricKey encryptedSymKey passphrase =
  let '(nonce, tag, ciphertext) := Claim.unpack (Base64.from_base64 encryptedSymKey) in
  Crypto.aes_256_gcm_decrypt (Keccak.keccak_256 (utf8 passphrase)) nonce tag ciphertext.
Proof. reflexivity. Qed.

(** C4 (as amended). Unpacking never fails. For every buffer, the views are
    the positional slices [0:12), [12:28) and [28:end), clamped to the
    buffer: together they are the buffer, a buffer of fewer than 28 bytes
    gives a short nonce or tag and an empty ciphertext, and a ciphertext of
    length zero is accepted like any other. The views go to the decipher as
    they are; whether it throws is the decipher's business. *)
Theorem unpack_clamps (buf key : list byte) :
  exists nonce tag ciphertext,
    Claim.unpack buf = (nonce, tag, ciphertext) /\
    nonce ++ tag ++ ciphertext = buf /\
    length nonce = Nat.min 12 (length buf) /\
    length tag = Nat.min 16 (length buf - 12) /\
    length ciphertext = (length buf - 28)%nat /\
    Claim.decryptFile buf key = Crypto.aes_256_gcm_decrypt key nonce tag ciphertext.
Proof.
  eexists _, _, _. split; [reflexivity|].
  unfold subarray, subarray_from.
  change (12 - 0)%nat with 12%nat. change (28 - 12)%nat with 16%nat.
  change (drop 0 buf) with buf.
  repeat split.
  - transitivity (take 12 buf ++ drop 12 buf); [|apply take_drop]. f_equal.
    transitivity (take 16 (drop 12 buf) ++ drop 16 (drop 12 buf));
      [|apply take_drop]. f_equal.
    now rewrite drop_drop.
  - rewrite length_take. lia.
  - rewrite length_take, length_drop. lia.
  - now rewrite length_drop.
Qed.

(** ** Running the routes *)

Lemma peek_length (w : World) (n : nat) : length (peek w n) = n.
Proof. unfold peek. now rewrite length_map, length_seq. Qed.

(** Unfolds the monad and nothing else. *)
Ltac run := cbv beta iota zeta delta [bind ret randomBytes].

Lemma encryptFile_returns (fileBuffer : list byte) (w : World) :
  exists encrypted authTag,
    Crypto.aes_256_gcm_encrypt (peek w 32) (peek (advance w 32) 12) fileBuffer
      = Crypto.Returns (encrypted, authTag) /\
    length authTag = 16%nat /\
    Upload.encryptFile fileBuffer w =
      (Crypto.Returns
         (Upload.mkEncryptedFile encrypted (peek (advance w 32) 12) authTag (peek w 32)),
       advance (advance w 32) 12).
Proof.
  destruct (aes_256_gcm_encrypt_returns (peek w 32) (peek (advance w 32) 12) fileBuffer)
    as (encrypted & authTag & E & _ & Ht).
  { apply peek_length. }
  { now rewrite peek_length. }
  exists encrypted, authTag. split; [exact E|]. split; [exact Ht|].
  unfold Upload.encryptFile. run. now rewrite E.
Qed.

Lemma encryptSymmetricKey_returns (symmetricKey : list byte) (passphrase : string)
    (w : World) :
  exists encryptedKey authTag,
    Crypto.aes_256_gcm_encrypt (Keccak.keccak_256 (utf8 passphrase)) (peek w 12)
      symmetricKey = Crypto.Returns (encryptedKey, authTag) /\
    length authTag = 16%nat /\
    Upload.encryptSymmetricKey symmetricKey passphrase w =
      (Crypto.Returns
         (Base64.to_base64 (Buffer_concat [peek w 12; authTag; encryptedKey])),
       advance w 12).
Proof.
  destruct (aes_256_gcm_encrypt_returns (Keccak.keccak_256 (utf8 passphrase))
              (peek w 12) symmetricKey)
    as (encryptedKey & authTag & E & _ & Ht).
  { apply keccak_256_length. }
  { now rewrite peek_length. }
  exists encryptedKey, authTag. split; [exact E|]. split; [exact Ht|].
  unfold Upload.encryptSymmetricKey. run. now rewrite E.
Qed.

Lemma decryptFile_packed (key nonce data encrypted authTag : list byte) :
  length nonce = 12%nat -> length authTag = 16%nat ->
  Crypto.aes_256_gcm_encrypt key nonce data = Crypto.Returns (encrypted, authTag) ->
  Claim.decryptFile (Buffer_concat [nonce; authTag; encrypted]) key
    = Crypto.Returns data.
Proof.
  intros Hn Ht E. unfold Claim.decryptFile, Buffer_concat. cbn [concat].
  rewrite app_nil_r.
  destruct (slices_of_concat nonce authTag encrypted Hn Ht) as (-> & -> & ->).
  now apply aes_256_gcm_decrypt_encrypt.
Qed.

Lemma decryptSymmetricKey_packed (passphrase : string)
    (nonce symmetricKey encryptedKey authTag : list byte) :
  length nonce = 12%nat -> length authTag = 16%nat ->
  Crypto.aes_256_gcm_encrypt (Keccak.keccak_256 (utf8 passphrase)) nonce symmetricKey
    = Crypto.Returns (encryptedKey, authTag) ->
  Claim.decryptSymmetricKey
    (Base64.to_base64 (Buffer_concat [nonce; authTag; encryptedKey])) passphrase
    = Crypto.Returns symmetricKey.
Proof.
  intros Hn Ht E. unfold Claim.decryptSymmetricKey.
  rewrite from_base64_to_base64. unfold Buffer_concat. cbn [concat].
  rewrite app_nil_r.
  destruct (slices_of_concat nonce authTag encryptedKey Hn Ht) as (-> & -> & ->).
  now apply aes_256_gcm_decrypt_encrypt.
Qed.

(** C1. For every plaintext [P] (the empty one included), every passphrase
    [S] and every state of the entropy source: [encryptFile] and
    [encryptSymmetricKey] return, decrypting the key envelope with the
    keccak-256-derived KEK recovers the file key, and decrypting the file
    envelope with that key recovers [P]. *)
Theorem open_created_drop (P : list byte) (S : string) (w : World) :
  exists e w1 encryptedSymKey w2,
    Upload.encryptFile P w = (Crypto.Returns e, w1) /\
    Upload.encryptSymmetricKey (Upload.key e) S w1
      = (Crypto.Returns encryptedSymKey, w2) /\
    Claim.decryptSymmetricKey encryptedSymKey S = Crypto.Returns (Upload.key e) /\
    Claim.decryptFile
      (Buffer_concat [Upload.iv e; Upload.authTag e; Upload.encryptedData e])
      (Upload.key e) = Crypto.Returns P.
Proof.
  destruct (encryptFile_returns P w) as (encrypted & authTag & E1 & Ht1 & R1).
  set (w1 := advance (advance w 32) 12) in *.
  destruct (encryptSymmetricKey_returns (peek w 32) S w1)
    as (encryptedKey & authTag2 & E2 & Ht2 & R2).
  eexists _, _, _, _. split; [exact R1|]. cbn [Upload.key Upload.iv
    Upload.authTag Upload.encryptedData]. split; [exact R2|]. split.
  - apply decryptSymmetricKey_packed; [apply peek_length|exact Ht2|exact E2].
  - apply decryptFile_packed; [apply peek_length|exact Ht1|exact E1].
Qed.

(** A digest in hexadecimal never starts with [0x], so the service always
    prefixes it. *)
Lemma bytes32_bytesToHex (bytes : list byte) :
  BlockDAGService.bytes32 (Hex.bytesToHex bytes)
    = ("0x" ++ Hex.bytesToHex bytes)%string.
Proof.
  unfold BlockDAGService.bytes32, startsWith, Hex.bytesToHex.
  destruct bytes as [|b bytes]; [reflexivity|].
  pose proof (to_N_lt b) as Hb.
  cbn [Hex.hex_chars string_of_list_ascii String.prefix].
  destruct (ascii_dec "0" (Hex.digit (Byte.to_N b / 16))) as [_|_]; [|reflexivity].
  destruct (ascii_dec "x" (Hex.digit (Byte.to_N b mod 16))) as [E|_]; [|reflexivity].
  exfalso. pose proof (digit_not_x (Byte.to_N b mod 16) ltac:(lia)) as Hx.
  rewrite <- E in Hx. discriminate Hx.
Qed.

(** What the handler of [POST /api/claim] replies for an active drop, case by
    case: the ledger compares the commitments first; the content is fetched;
    an empty key is refused; then the two decryptions run, and whatever they
    throw is caught and answered with [CLAIM_ERROR]. *)
Lemma claim_active_drop (w : World) (dropId passphrase : string) (d : Drop) :
  drops w !! dropId = Some d ->
  drop_isActive d = true ->
  fst (Claim.handler dropId passphrase w) =
    if String.eqb (drop_passphraseHash d)
                  ("0x" ++ Upload.passphraseHash passphrase)%string
    then
      match pins w !! drop_ipfsHash d with
      | None =>
          Claim.Failed 500
            "Failed to fetch file from IPFS: Failed to fetch: 404 Not Found"
            "IPFS_FETCH_FAILED"
      | Some data =>
          if String.eqb (drop_encryptedSymKey d) ""
          then Claim.Failed 500 "Encrypted key not available from contract"
                 "KEY_NOT_AVAILABLE"
          else
            match Claim.decryptSymmetricKey (drop_encryptedSymKey d) passphrase with
            | Crypto.Throws _ => Claim.CLAIM_ERROR
            | Crypto.Returns symmetricKey =>
                match Claim.decryptFile data symmetricKey with
                | Crypto.Throws _ => Claim.CLAIM_ERROR
                | Crypto.Returns decryptedFile => Claim.File decryptedFile
                end
            end
      end
    else Claim.Failed 401 "Invalid passphrase" "INVALID_PASSPHRASE".
Proof.
  intros Hd Ha.
  unfold Claim.handler, BlockDAGService.claimDrop, Upload.passphraseHash.
  rewrite bytes32_bytesToHex.
  unfold Contract.getDrop, Contract.claimDrop. run.
  rewrite Hd, Ha. cbn [negb]. rewrite Hd, Ha. cbn [negb].
  destruct (String.eqb (drop_passphraseHash d) _); cbn [negb].
  - unfold IPFSService.fetchFile. cbn [pins].
    destruct (pins w !! drop_ipfsHash d) as [data|]; [|reflexivity].
    destruct (String.eqb (drop_encryptedSymKey d) ""); [reflexivity|].
    destruct (Claim.decryptSymmetricKey _ _) as [symmetricKey|]; [|reflexivity].
    now destruct (Claim.decryptFile _ _).
  - reflexivity.
Qed.

Lemma to_base64_not_empty (buf : list byte) :
  buf <> [] -> String.eqb (Base64.to_base64 buf) "" = false.
Proof.
  intros Hne. unfold Base64.to_base64, Base64.encode.
  destruct buf as [|a [|b [|c rest]]]; [congruence|reflexivity..].
Qed.



(** With the passphrase of the drop, the reply is decided by the
    decryption of the file envelope. *)
Lemma claim_held_drop (w : World) (dropId passphrase : string)
    (symmetricKey file : list byte) :
  holds_drop w dropId passphrase symmetricKey file ->
  fst (Claim.handler dropId passphrase w) =
    match Claim.decryptFile file symmetricKey with
    | Crypto.Returns decryptedFile => Claim.File decryptedFile
    | Crypto.Throws _ => Claim.CLAIM_ERROR
    end.
Proof.
  intros (d & Hd & Ha & Hh & Hk & Hs & Hp).
  rewrite (claim_active_drop w dropId passphrase d Hd Ha).
  rewrite Hh, String.eqb_refl, Hp, Hk, Hs. reflexivity.
Qed.





(** ** Counting digests

    A 32-byte digest takes at most [256 ^ 32] values, fewer than there are
    passphrases of 257 letters over a two-letter alphabet: two different
    passphrases with the same digest exist. *)


Lemma NoDup_append {A} (l1 l2 : list A) :
  List.NoDup l1 -> List.NoDup l2 -> (forall x, In x l1 -> In x l2 -> False) ->
  List.NoDup (l1 ++ l2).
Proof.
  induction 1 as [|x l1 Hx _ IH]; intros H2 Hd; [exact H2|].
  cbn [app]. constructor.
  - intros Hin. apply List.in_app_or in Hin as [Hin|Hin]; [contradiction|].
    apply (Hd x); [now left|exact Hin].
  - apply IH; [exact H2|]. intros y Hy. apply Hd. now right.
Qed.








(** ** Wrong passphrases *)





(** ** The passphrase generator *)

Lemma words_lookup (i : nat) :
  (i < 18)%nat -> Upload.words !! i = Some (nth i Upload.words "").
Proof.
  intros H. do 18 (destruct i as [|i]; [reflexivity|]). lia.
Qed.

Lemma word_of_byte_In (b : byte) : In (word_of_byte b) Upload.words.
Proof.
  unfold word_of_byte. apply nth_In.
  change (length Upload.words) with 18%nat.
  apply Nat.mod_upper_bound. discriminate.
Qed.

(** One turn of the loop draws one byte and pushes the word it selects: the
    lookup never fails. *)
Lemma pick_word_spec (passphrase : list string) (w : World) :
  Upload.pick_word passphrase w
    = (passphrase ++ [word_of_byte (entropy w (drawn w + 0))], advance w 1).
Proof.
  unfold Upload.pick_word. run. unfold peek. cbn [seq map lookup list_lookup].
  change (length Upload.words) with 18%nat.
  rewrite words_lookup by (apply Nat.mod_upper_bound; discriminate).
  reflexivity.
Qed.

Lemma advance_advance (w : World) (n m : nat) :
  advance (advance w n) m = advance w (n + m).
Proof. unfold advance. cbn [entropy drawn drops pins cid_of]. f_equal. lia. Qed.

Lemma pick_words_spec (count : nat) (passphrase : list string) (w : World) :
  Upload.pick_words count passphrase w
    = (passphrase ++ map (fun i => word_of_byte (entropy w (drawn w + i))) (seq 0 count),
       advance w count).
Proof.
  revert passphrase w. induction count as [|count IH]; intros passphrase w.
  - cbn [Upload.pick_words seq map]. unfold ret. rewrite app_nil_r.
    unfold advance. rewrite Nat.add_0_r. now destruct w.
  - cbn [Upload.pick_words]. run. rewrite pick_word_spec, IH.
    rewrite advance_advance. f_equal.
    rewrite <- app_assoc. f_equal. cbn [seq map app]. f_equal.
    rewrite <- seq_shift, map_map. apply map_ext. intros i.
    cbn [entropy drawn advance]. do 2 f_equal. lia.
Qed.

(** [generatePassphrase] in closed form: six words, the [i]-th selected by
    the [i]-th byte drawn. *)
Lemma generatePassphrase_spec (w : World) :
  Upload.generatePassphrase w
    = (Upload.join "-" (map (fun i => word_of_byte (entropy w (drawn w + i))) (seq 0 6)),
       advance w 6).
Proof.
  unfold Upload.generatePassphrase. run. now rewrite pick_words_spec.
Qed.

(** C8 (as amended). The generator never fails and never drops a word: for
    every state of the entropy source it returns six words joined by [-],
    the [i]-th of them the entry of the word list that the [i]-th byte drawn
    from [crypto.randomBytes] selects, whatever the other bytes are. (The
    loop pushes a word only when byte and word are defined and raises no
    error otherwise; with this list the lookup always succeeds.) *)
Theorem generatePassphrase_picks (w : World) :
  exists b0 b1 b2 b3 b4 b5 : byte,
    peek w 6 = [b0; b1; b2; b3; b4; b5] /\
    Upload.generatePassphrase w
      = (Upload.join "-" [word_of_byte b0; word_of_byte b1; word_of_byte b2;
                          word_of_byte b3; word_of_byte b4; word_of_byte b5],
         advance w 6) /\
    Forall (fun b => Upload.words !! (Byte.to_nat b mod length Upload.words)%nat
                     = Some (word_of_byte b))
           [b0; b1; b2; b3; b4; b5].
Proof.
  eexists _, _, _, _, _, _. split; [reflexivity|].
  split; [apply generatePassphrase_spec|].
  repeat constructor;
    change (length Upload.words) with 18%nat;
    apply words_lookup, Nat.mod_upper_bound; discriminate.
Qed.

(** C8 as stated fails: the picks are not uniform. Of the 256 values of a
    byte, 15 select [quantum] and 14 select [key]. *)
Lemma words_not_equally_likely :
  weight "quantum" = 15%nat /\ weight "key" = 14%nat.
Proof. split; vm_compute; reflexivity. Qed.

Lemma words_of_code_of_bytes (bs : list byte) :
  words_of_code (length bs) (code_of_bytes bs) = map word_of_byte bs /\
  code_of_bytes bs < 18 ^ N.of_nat (length bs).
Proof.
  induction bs as [|b bs [IH1 IH2]]; [split; [reflexivity|cbn; lia]|].
  cbn [length code_of_bytes words_of_code map]. unfold word_of_byte at 1.
  pose proof (Nat.mod_upper_bound (Byte.to_nat b) 18 ltac:(discriminate)) as Hb.
  revert Hb. generalize (Byte.to_nat b mod 18)%nat as i. intros i Hi.
  assert (E1 : (N.of_nat i + 18 * code_of_bytes bs) mod 18 = N.of_nat i) by lia.
  assert (E2 : (N.of_nat i + 18 * code_of_bytes bs) / 18 = code_of_bytes bs) by lia.
  rewrite E1, E2, Nat2N.id, IH1. split; [reflexivity|].
  rewrite Nat2N.inj_succ, N.pow_succ_r'. lia.
Qed.

(** C9. Every passphrase the generator produces is exactly 6 words, each an
    entry of the fixed 18-word list, joined by [-]; it is one of the
    [18 ^ 6 = 34012224] passphrases [nth_passphrase n], [n < 18 ^ 6]. The
    generator takes no word count and no word list. *)
Theorem generatePassphrase_space (w : World) :
  length Upload.words = 18%nat /\
  (exists ws : list string,
     fst (Upload.generatePassphrase w) = Upload.join "-" ws /\
     length ws = 6%nat /\
     Forall (fun word => In word Upload.words) ws) /\
  (exists n : N,
     n < 34012224 /\ fst (Upload.generatePassphrase w) = nth_passphrase n).
Proof.
  rewrite generatePassphrase_spec. cbn [fst].
  split; [reflexivity|]. split.
  - eexists. split; [reflexivity|]. split; [now rewrite length_map, length_seq|].
    apply List.Forall_map, List.Forall_forall. intros i _. apply word_of_byte_In.
  - exists (code_of_bytes (peek w 6)).
    destruct (words_of_code_of_bytes (peek w 6)) as [E B].
    rewrite peek_length in E, B. split; [exact B|].
    unfold nth_passphrase. rewrite E. unfold peek. now rewrite map_map.
Qed.

(** ** The commitment and the KEK *)

Lemma unwrap_kek (passphrase encryptedSymKey : string) :
  unwrap (Keccak.keccak_256 (utf8 passphrase)) encryptedSymKey
    = Claim.decryptSymmetricKey encryptedSymKey passphrase.
Proof. reflexivity. Qed.

(** C3 (as amended). The commitment is computed from the same input with the
    same algorithm as the KEK, without domain separation: it is the
    lower-case hexadecimal text of the KEK bytes. Reading the digits of the
    commitment back gives the KEK, which unwraps the key envelope that
    [encryptSymmetricKey] made for the passphrase. *)
Theorem commitment_encodes_kek (S : string) (symmetricKey : list byte) (w : World) :
  exists (encryptedSymKey : string) (w' : World) (kek : list byte),
    Upload.encryptSymmetricKey symmetricKey S w
      = (Crypto.Returns encryptedSymKey, w') /\
    Hex.hexToBytes (Upload.passphraseHash S) = Some kek /\
    kek = Keccak.keccak_256 (utf8 S) /\
    unwrap kek encryptedSymKey = Crypto.Returns symmetricKey.
Proof.
  destruct (encryptSymmetricKey_returns symmetricKey S w)
    as (encryptedKey & authTag & E & Ht & R).
  eexists _, _, _. split; [exact R|].
  split; [apply hexToBytes_bytesToHex|]. split; [reflexivity|].
  rewrite unwrap_kek.
  apply decryptSymmetricKey_packed; [apply peek_length|exact Ht|exact E].
Qed.

(** C3 as stated fails: in the scenario, the commitment stored on the ledger
    decodes to the KEK, and the public record alone opens the drop. *)
Lemma public_record_opens_drop :
  Hex.hexToBytes (Upload.passphraseHash demo_passphrase)
    = Some (Keccak.keccak_256 (utf8 demo_passphrase)) /\
  open_from_public_record demo_stored demo_dropId = Some (utf8 "hello world").
Proof. split; vm_compute; reflexivity. Qed.

(** ** Tampering *)
















(** C4 as stated fails: unpacking a 3-byte buffer does not fail, it gives
    the three bytes as the nonce, an empty tag and an empty ciphertext. It
    is the decipher that throws (no tag has length zero), and the handler
    answers with the 500 [CLAIM_ERROR] of its [catch]. *)
Lemma short_envelope_unpacks :
  Claim.unpack [x01; x02; x03] = ([x01; x02; x03], [], []) /\
  Claim.decryptFile [x01; x02; x03] demo_key
    = Crypto.Throws Crypto.InvalidAuthTagLength /\
  fst (Claim.handler demo_dropId demo_passphrase
         (tamper_file demo_cid (fun _ => [x01; x02; x03]) demo_stored))
    = Claim.Failed 500 "Internal server error" "CLAIM_ERROR".
Proof. do 2 (split; [vm_compute; reflexivity|]). vm_compute; reflexivity. Qed.

(** Not every buffer of fewer than 28 bytes even fails. The file envelope
    of an empty file has 28 bytes; cut to 20 (the nonce and the first eight
    bytes of the tag) it still opens, an 8-byte tag being one that
    [setAuthTag] accepts. *)
Lemma truncated_envelope_opens :
  let w := snd (Upload.createDrop demo_passphrase "=" demo_world) in
  let cid := drop_ipfsHash (demo_drop w) in
  length <$> pins w !! cid = Some 28%nat /\
  fst (Claim.handler demo_dropId demo_passphrase w) = Claim.File [] /\
  length <$> pins (tamper_file cid (take 20) w) !! cid = Some 20%nat /\
  fst (Claim.handler demo_dropId demo_passphrase (tamper_file cid (take 20) w))
    = Claim.File [].
Proof.
  intros w cid. do 3 (split; [vm_compute; reflexivity|]). vm_compute; reflexivity.
Qed.

(** ** The two handlers together *)



(** A claim for an identifier the ledger does not know is answered with 404
    [DROP_NOT_FOUND], whatever the passphrase. *)
Theorem claim_unknown_drop (w : World) (dropId passphrase : string) :
  drops w !! dropId = None ->
  Claim.handler dropId passphrase w
    = (Claim.Failed 404 "Drop not found" "DROP_NOT_FOUND", w).
Proof.
  intros Hd. unfold Claim.handler, BlockDAGService.claimDrop, Contract.getDrop.
  run. rewrite Hd. reflexivity.
Qed.

Lemma claim_unknown_drop_witness :
  drops demo_world !! demo_dropId = None /\
  Claim.handler demo_dropId demo_passphrase demo_world
    = (Claim.Failed 404 "Drop not found" "DROP_NOT_FOUND", demo_world).
Proof.
  assert (Hd : drops demo_world !! demo_dropId = None) by (vm_compute; reflexivity).
  split; [exact Hd|].
  exact (claim_unknown_drop demo_world demo_dropId demo_passphrase Hd).
Defined.

(** A claim for a deactivated drop is answered with 403 [DROP_INACTIVE]
    before the passphrase is looked at, and leaves the world as it is. *)
Theorem claim_inactive_drop (w : World) (dropId passphrase : string) (d : Drop) :
  drops w !! dropId = Some d ->
  drop_isActive d = false ->
  Claim.handler dropId passphrase w
    = (Claim.Failed 403 "Drop has been deactivated by owner" "DROP_INACTIVE", w).
Proof.
  intros Hd Ha. unfold Claim.handler, BlockDAGService.claimDrop, Contract.getDrop.
  run. rewrite Hd, Ha. reflexivity.
Qed.

Lemma claim_inactive_drop_witness :
  drops demo_deactivated !! demo_dropId = Some (demo_drop demo_deactivated) /\
  drop_isActive (demo_drop demo_deactivated) = false /\
  Claim.handler demo_dropId demo_passphrase demo_deactivated
    = (Claim.Failed 403 "Drop has been deactivated by owner" "DROP_INACTIVE",
       demo_deactivated).
Proof.
  assert (H1 : drops demo_deactivated !! demo_dropId
               = Some (demo_drop demo_deactivated)) by (vm_compute; reflexivity).
  assert (H2 : drop_isActive (demo_drop demo_deactivated) = false)
    by (vm_compute; reflexivity).
  split; [exact H1|]. split; [exact H2|].
  exact (claim_inactive_drop demo_deactivated demo_dropId demo_passphrase
           (demo_drop demo_deactivated) H1 H2).
Defined.

(** A claim with the right passphrase counts the claim on the ledger and
    changes nothing else. *)
Lemma claim_counts (w : World) (dropId passphrase : string) (d : Drop) :
  drops w !! dropId = Some d ->
  drop_isActive d = true ->
  drop_passphraseHash d = ("0x" ++ Upload.passphraseHash passphrase)%string ->
  snd (Claim.handler dropId passphrase w)
    = mkWorld (entropy w) (drawn w) (<[dropId := claimed_once d]> (drops w))
              (pins w) (cid_of w).
Proof.
  intros Hd Ha Hh.
  unfold Claim.handler, BlockDAGService.claimDrop, Upload.passphraseHash in *.
  rewrite bytes32_bytesToHex.
  unfold Contract.getDrop, Contract.claimDrop. run.
  rewrite Hd, Ha. cbn [negb]. rewrite Hd, Ha. cbn [negb].
  rewrite Hh, String.eqb_refl. cbn [negb].
  unfold IPFSService.fetchFile, claimed_once. cbn [pins]. rewrite Ha, Hh.
  destruct (pins w !! drop_ipfsHash d) as [data|]; [|reflexivity].
  destruct (String.eqb (drop_encryptedSymKey d) ""); [reflexivity|].
  destruct (Claim.decryptSymmetricKey _ _) as [symmetricKey|]; [|reflexivity].
  now destruct (Claim.decryptFile _ _).
Qed.

(** Claims are unlimited: after a claim with the right passphrase the drop
    is still held, and the next claim gets the same reply. *)
Theorem claim_again (w : World) (dropId passphrase : string)
    (symmetricKey file : list byte) :
  holds_drop w dropId passphrase symmetricKey file ->
  holds_drop (snd (Claim.handler dropId passphrase w)) dropId passphrase
             symmetricKey file /\
  fst (Claim.handler dropId passphrase (snd (Claim.handler dropId passphrase w)))
    = fst (Claim.handler dropId passphrase w).
Proof.
  intros Hh.
  assert (Hh' : holds_drop (snd (Claim.handler dropId passphrase w)) dropId
                  passphrase symmetricKey file).
  { destruct Hh as (d & Hd & Ha & Hc & Hk & Hs & Hp).
    rewrite (claim_counts w dropId passphrase d Hd Ha Hc).
    exists (claimed_once d). cbn [drops pins]. rewrite lookup_insert_eq.
    cbn [claimed_once drop_isActive drop_passphraseHash drop_encryptedSymKey
         drop_ipfsHash]. auto 10. }
  split; [exact Hh'|].
  now rewrite (claim_held_drop _ _ _ _ _ Hh'), (claim_held_drop _ _ _ _ _ Hh).
Qed.

Lemma claim_again_witness :
  holds_drop demo_stored demo_dropId demo_passphrase demo_key
             (demo_pinned demo_stored) /\
  holds_drop (snd (Claim.handler demo_dropId demo_passphrase demo_stored))
             demo_dropId demo_passphrase demo_key (demo_pinned demo_stored) /\
  fst (Claim.handler demo_dropId demo_passphrase
         (snd (Claim.handler demo_dropId demo_passphrase demo_stored)))
    = fst (Claim.handler demo_dropId demo_passphrase demo_stored).
Proof.
  assert (Hh : holds_drop demo_stored demo_dropId demo_passphrase demo_key
                 (demo_pinned demo_stored)).
  { exists (demo_drop demo_stored).
    do 5 (split; [vm_compute; reflexivity|]). vm_compute; reflexivity. }
  split; [exact Hh|].
  exact (claim_again demo_stored demo_dropId demo_passphrase demo_key
           (demo_pinned demo_stored) Hh).
Defined.

(** * The type of a file, the client and the first contract *)

(** ** The type of a decrypted file *)

Lemma subarray_0 (buf : list byte) (n : nat) : subarray buf 0 n = take n buf.
Proof. unfold subarray. now rewrite Nat.sub_0_r, drop_0. Qed.

Lemma take_min_length {A} (n : nat) (l : list A) :
  take (Nat.min n (length l)) l = take n l.
Proof.
  destruct (Nat.le_gt_cases n (length l)) as [H|H].
  - now rewrite Nat.min_l.
  - rewrite Nat.min_r by lia. rewrite !take_ge by lia. reflexivity.
Qed.

Lemma all_from_spec (count : nat) (i : N) (f : N -> bool) :
  all_from count i f = true ->
  forall j, i <= j -> j < i + N.of_nat count -> f j = true.
Proof.
  revert i. induction count as [|count IH]; intros i H j Hi Hj; [lia|].
  cbn [all_from] in H. apply andb_prop in H as [H0 H1].
  destruct (N.eq_dec i j) as [->|Hne]; [exact H0|].
  apply (IH (i + 1) H1); lia.
Qed.

(** The quotient of two numbers of naturals up to 512 exceeds the number of
    [0.85] exactly when the quotient of the naturals exceeds 17/20; rounding
    does not change the comparison. *)
Lemma mostly_printable_checked :
  all_from 513 0 (fun size =>
    all_from (S (N.to_nat size)) 0 (fun printable =>
      Bool.eqb (mostly_printable printable size) (17 * size <? 20 * printable)))
  = true.
Proof. vm_compute. reflexivity. Qed.

Lemma mostly_printable_spec (printable size : N) :
  printable <= size -> size <= 512 ->
  mostly_printable printable size = (17 * size <? 20 * printable).
Proof.
  intros Hp Hs.
  pose proof (all_from_spec _ _ _ mostly_printable_checked size) as H.
  cbv beta in H.
  apply Bool.eqb_prop.
  apply (all_from_spec _ _ _ (H ltac:(lia) ltac:(lia))); lia.
Qed.

Lemma count_printable_spec (sample : list byte) (printable : N) :
  Claim.count_printable sample printable
    = printable + N.of_nat (length (List.filter Claim.is_printable sample)).
Proof.
  revert printable. induction sample as [|b sample IH]; intros printable.
  - cbn. lia.
  - cbn [Claim.count_printable List.filter]. rewrite IH.
    destruct (Claim.is_printable b); cbn [length]; lia.
Qed.

Lemma isTextFile_counts (buffer : list byte) :
  Claim.isTextFile buffer
    = (17 * N.of_nat (length (take 512 buffer))
         <? 20 * N.of_nat (length (List.filter Claim.is_printable (take 512 buffer)))).
Proof.
  unfold Claim.isTextFile. rewrite subarray_0, take_min_length.
  rewrite count_printable_spec, N.add_0_l.
  apply mostly_printable_spec.
  - pose proof (List.filter_length_le Claim.is_printable (take 512 buffer)). lia.
  - rewrite length_take. lia.
Qed.

(** [isTextFile] in closed form. A buffer is text exactly when more than 17
    in 20 of its first 512 bytes (of all its bytes, when it has fewer) are
    printable: comparing the floating-point quotient with [0.85] is
    comparing the counts. The empty buffer is not text, its quotient being
    [NaN]. *)
Theorem isTextFile_threshold (buffer : list byte) :
  Claim.isTextFile buffer
    = (17 * N.of_nat (length (take 512 buffer))
         <? 20 * N.of_nat (length (List.filter Claim.is_printable (take 512 buffer)))).
Proof.
  apply isTextFile_counts.
Qed.

(** The signatures. A file that starts with the bytes of PNG, of JPEG with
    an [E0], [E1] or [E2] marker, of PDF, of GIF, with [%!PS] or with the
    UTF-8 byte order mark is typed by them, whatever follows. *)
Theorem detectFileType_signatures (rest : list byte) :
  Claim.detectFileType (unhex "89504e47" ++ rest)
    = Claim.mkFileType "png" "image/png" /\
  Claim.detectFileType (unhex "ffd8ffe0" ++ rest)
    = Claim.mkFileType "jpg" "image/jpeg" /\
  Claim.detectFileType (unhex "ffd8ffe1" ++ rest)
    = Claim.mkFileType "jpg" "image/jpeg" /\
  Claim.detectFileType (unhex "ffd8ffe2" ++ rest)
    = Claim.mkFileType "jpg" "image/jpeg" /\
  Claim.detectFileType (unhex "25504446" ++ rest)
    = Claim.mkFileType "pdf" "application/pdf" /\
  Claim.detectFileType (unhex "47494638" ++ rest)
    = Claim.mkFileType "gif" "image/gif" /\
  Claim.detectFileType (utf8 "%!PS" ++ rest)
    = Claim.mkFileType "ps" "application/postscript" /\
  Claim.detectFileType (unhex "efbbbf" ++ rest)
    = Claim.mkFileType "txt" "text/plain".
Proof.
  repeat split; try (vm_compute; reflexivity).
  destruct rest; vm_compute; reflexivity.
Qed.

Lemma toString_ascii_cons2 (b0 b1 : byte) (rest : list byte) :
  Buffer.toString_ascii (b0 :: b1 :: rest) 0 2
    = String (ascii_of_N (Byte.to_N b0 mod 128))
        (String (ascii_of_N (Byte.to_N b1 mod 128)) "").
Proof. reflexivity. Qed.

(** ['ascii'] decoding unsets the highest bit, so the ZIP test reads the
    first two bytes modulo 128: a file whose first bytes are [P] and [K]
    with or without the highest bit set ([D0 CB], say) is typed as a ZIP
    archive or an Office document. *)
Theorem detectFileType_ascii_high_bit (b0 b1 : byte) (rest : list byte) :
  Byte.to_N b0 mod 128 = 80 ->
  Byte.to_N b1 mod 128 = 75 ->
  In (Claim.ext (Claim.detectFileType (b0 :: b1 :: rest)))
     ["docx"; "xlsx"; "pptx"; "zip"].
Proof.
  intros H0 H1. unfold Claim.detectFileType.
  rewrite toString_ascii_cons2, H0, H1.
  change (String.eqb _ "PK") with true. cbv iota zeta.
  repeat match goal with |- context [if ?c then _ else _] => destruct c end;
    cbn [Claim.ext In]; auto.
Qed.

Lemma detectFileType_ascii_high_bit_witness :
  Byte.to_N xd0 mod 128 = 80 /\
  Byte.to_N xcb mod 128 = 75 /\
  In (Claim.ext (Claim.detectFileType [xd0; xcb; x03; x04]))
     ["docx"; "xlsx"; "pptx"; "zip"].
Proof.
  split; [reflexivity|]. split; [reflexivity|].
  apply (detectFileType_ascii_high_bit xd0 xcb [x03; x04]); reflexivity.
Defined.

Lemma toString_ascii_take (buf : list byte) (n m : nat) :
  (n <= m)%nat ->
  Buffer.toString_ascii (take m buf) 0 n = Buffer.toString_ascii buf 0 n.
Proof.
  intros H. unfold Buffer.toString_ascii. rewrite !subarray_0, take_take.
  now rewrite Nat.min_l.
Qed.

Lemma toString_hex_take (buf : list byte) (n m : nat) :
  (n <= m)%nat ->
  Buffer.toString_hex (take m buf) 0 n = Buffer.toString_hex buf 0 n.
Proof.
  intros H. unfold Buffer.toString_hex. rewrite !subarray_0, take_take.
  now rewrite Nat.min_l.
Qed.

Lemma isTextFile_take (buf : list byte) (m : nat) :
  (512 <= m)%nat -> Claim.isTextFile (take m buf) = Claim.isTextFile buf.
Proof.
  intros H. unfold Claim.isTextFile.
  rewrite !subarray_0, !take_min_length, take_take. now rewrite Nat.min_l.
Qed.

(** The type of a file depends on its first 4000 bytes only. *)
Theorem detectFileType_window (buffer : list byte) :
  Claim.detectFileType buffer = Claim.detectFileType (take 4000 buffer).
Proof.
  unfold Claim.detectFileType.
  rewrite !toString_ascii_take, !toString_hex_take, isTextFile_take by lia.
  unfold Buffer.toString_binary.
  rewrite !subarray_0, !take_min_length, take_take. reflexivity.
Qed.

(** The extension and the MIME type that [detectFileType] returns go
    together: the result is one of eleven pairs. *)
Lemma detectFileType_range (buffer : list byte) :
  In (Claim.detectFileType buffer)
     [ Claim.mkFileType "docx"
         "application/vnd.openxmlformats-officedocument.wordprocessingml.document";
       Claim.mkFileType "xlsx"
         "application/vnd.openxmlformats-officedocument.spreadsheetml.sheet";
       Claim.mkFileType "pptx"
         "application/vnd.openxmlformats-officedocument.presentationml.presentation";
       Claim.mkFileType "zip" "application/zip";
       Claim.mkFileType "png" "image/png";
       Claim.mkFileType "jpg" "image/jpeg";
       Claim.mkFileType "pdf" "application/pdf";
       Claim.mkFileType "gif" "image/gif";
       Claim.mkFileType "ps" "application/postscript";
       Claim.mkFileType "txt" "text/plain";
       Claim.mkFileType "bin" "application/octet-stream" ].
Proof.
  unfold Claim.detectFileType. cbv zeta.
  repeat match goal with |- context [if ?c then _ else _] => destruct c end;
    cbn [In]; auto 20.
Qed.

Lemma substring_all (s : string) (n : nat) :
  (String.length s <= n)%nat -> String.substring 0 n s = s.
Proof.
  revert n. induction s as [|c s IH]; intros n H.
  - now destruct n.
  - destruct n as [|n]; [cbn in H; lia|]. cbn [String.substring]. f_equal.
    apply IH. cbn in H. lia.
Qed.

Lemma utf8_substring (text : string) (n : nat) :
  utf8 (String.substring 0 n text) = take n (utf8 text).
Proof.
  unfold utf8, list_byte_of_string. revert n.
  induction text as [|c text IH]; intros n.
  - now destruct n.
  - destruct n as [|n]; [reflexivity|].
    simpl. f_equal. apply IH.
Qed.

Lemma length_bytesToHex (bytes : list byte) :
  String.length (Hex.bytesToHex bytes) = (2 * length bytes)%nat.
Proof.
  unfold Hex.bytesToHex. induction bytes as [|b bytes IH]; [reflexivity|].
  simpl. rewrite IH. lia.
Qed.

(** The header starts with the eight digits of a signature exactly when the
    buffer starts with the four bytes of the signature. *)
Lemma header_startsWith (buffer signature : list byte) :
  length signature = 4%nat ->
  startsWith (Hex.bytesToHex signature) (Buffer.toString_hex buffer 0 4) = true ->
  take 4 buffer = signature.
Proof.
  intros Hs H. unfold startsWith in H. apply String.prefix_correct in H.
  unfold Buffer.toString_hex in *. rewrite subarray_0 in H.
  rewrite substring_all in H.
  - now apply bytesToHex_inj.
  - rewrite !length_bytesToHex, length_take, Hs. lia.
Qed.

Lemma is_printable_lt (b : byte) : Claim.is_printable b = true -> Byte.to_N b < 128.
Proof.
  unfold Claim.is_printable. cbv zeta.
  rewrite !orb_true_iff, andb_true_iff, !N.leb_le, !N.eqb_eq. lia.
Qed.

Lemma toString_ascii_printable (text : string) (n : nat) :
  Forall (fun b => Claim.is_printable b = true) (utf8 text) ->
  Buffer.toString_ascii (utf8 text) 0 n = String.substring 0 n text.
Proof.
  unfold Buffer.toString_ascii. rewrite subarray_0.
  unfold utf8, list_byte_of_string.
  revert n. induction text as [|c text IH]; intros n H.
  - now destruct n.
  - destruct n as [|n]; [reflexivity|].
    simpl in *. apply Forall_cons in H as [Hc H].
    rewrite IH by exact H. f_equal.
    rewrite N.mod_small by now apply is_printable_lt.
    now rewrite <- ascii_of_byte_via_N, ascii_of_byte_of_ascii.
Qed.

Lemma startsWith_eqb_substring (part text : string) :
  startsWith part text = String.eqb (String.substring 0 (String.length part) text) part.
Proof.
  unfold startsWith.
  destruct (String.eqb _ part) eqn:E.
  - apply String.eqb_eq in E. now apply String.prefix_correct.
  - apply String.eqb_neq in E. destruct (String.prefix part text) eqn:P; [|reflexivity].
    apply String.prefix_correct in P. contradiction.
Qed.

Lemma filter_all {A} (f : A -> bool) (l : list A) :
  Forall (fun a => f a = true) l -> List.filter f l = l.
Proof.
  induction 1 as [|a l Ha _ IH]; [reflexivity|]. cbn. now rewrite Ha, IH.
Qed.

Lemma length_string_of_list_byte (l : list byte) :
  String.length (string_of_list_byte l) = length l.
Proof.
  unfold string_of_list_byte.
  induction l as [|b l IH]; [reflexivity|]. simpl. now rewrite IH.
Qed.

Lemma header_of_text (text : string) (signature : list byte) :
  length signature = 4%nat ->
  startsWith (Hex.bytesToHex signature) (Buffer.toString_hex (utf8 text) 0 4) = true ->
  take 4 (utf8 text) = signature /\
  startsWith (string_of_list_byte signature) text = true.
Proof.
  intros Hs H. apply header_startsWith in H; [|exact Hs]. split; [exact H|].
  rewrite startsWith_eqb_substring. apply String.eqb_eq.
  rewrite length_string_of_list_byte, Hs.
  rewrite <- H, <- utf8_substring. unfold utf8.
  now rewrite string_of_list_byte_of_string.
Qed.

(** A text is typed as text: a non-empty file of printable ASCII
    characters, TABs and line ends is [txt], unless it starts with [PK],
    [%PDF], [GIF8] or [%!PS], the signatures that are printable. *)
Theorem printable_text_is_txt (text : string) :
  text <> "" ->
  Forall (fun b => Claim.is_printable b = true) (utf8 text) ->
  startsWith "PK" text = false ->
  startsWith "%PDF" text = false ->
  startsWith "GIF8" text = false ->
  startsWith "%!PS" text = false ->
  Claim.detectFileType (utf8 text) = Claim.mkFileType "txt" "text/plain".
Proof.
  intros Hne Hp Hzip Hpdf Hgif Hps.
  rewrite (startsWith_eqb_substring "PK") in Hzip.
  rewrite (startsWith_eqb_substring "%!PS") in Hps.
  cbn [String.length] in Hzip, Hps.
  assert (Htext : Claim.isTextFile (utf8 text) = true).
  { rewrite isTextFile_counts, filter_all by now apply Forall_take.
    apply N.ltb_lt. rewrite length_take.
    destruct text as [|c text]; [congruence|].
    unfold utf8, list_byte_of_string. cbn [list_ascii_of_string map length]. lia. }
  unfold Claim.detectFileType. cbv zeta.
  rewrite !toString_ascii_printable, Hzip, Hps, Htext by exact Hp.
  rewrite orb_true_r.
  assert (Hp4 : Forall (fun b => Claim.is_printable b = true) (take 4 (utf8 text)))
    by now apply Forall_take.
  destruct (startsWith "89504e47" _) eqn:E1.
  { apply (header_of_text text (unhex "89504e47") eq_refl) in E1 as [E1 _].
    rewrite E1 in Hp4. apply Forall_cons in Hp4 as [Hp4 _]. discriminate Hp4. }
  destruct (startsWith "ffd8ffe0" _) eqn:E2.
  { apply (header_of_text text (unhex "ffd8ffe0") eq_refl) in E2 as [E2 _].
    rewrite E2 in Hp4. apply Forall_cons in Hp4 as [Hp4 _]. discriminate Hp4. }
  destruct (startsWith "ffd8ffe1" _) eqn:E3.
  { apply (header_of_text text (unhex "ffd8ffe1") eq_refl) in E3 as [E3 _].
    rewrite E3 in Hp4. apply Forall_cons in Hp4 as [Hp4 _]. discriminate Hp4. }
  destruct (startsWith "ffd8ffe2" _) eqn:E4.
  { apply (header_of_text text (unhex "ffd8ffe2") eq_refl) in E4 as [E4 _].
    rewrite E4 in Hp4. apply Forall_cons in Hp4 as [Hp4 _]. discriminate Hp4. }
  cbn [orb].
  destruct (startsWith "25504446" _) eqn:E5.
  { apply (header_of_text text (unhex "25504446") eq_refl) in E5 as [_ E5].
    change (string_of_list_byte _) with "%PDF"%string in E5. congruence. }
  destruct (startsWith "47494638" _) eqn:E6.
  { apply (header_of_text text (unhex "47494638") eq_refl) in E6 as [_ E6].
    change (string_of_list_byte _) with "GIF8"%string in E6. congruence. }
  reflexivity.
Qed.

Lemma printable_text_is_txt_witness :
  "hello world"%string <> ""%string /\
  Forall (fun b => Claim.is_printable b = true) (utf8 "hello world") /\
  startsWith "PK" "hello world" = false /\
  startsWith "%PDF" "hello world" = false /\
  startsWith "GIF8" "hello world" = false /\
  startsWith "%!PS" "hello world" = false /\
  Claim.detectFileType (utf8 "hello world") = Claim.mkFileType "txt" "text/plain".
Proof.
  assert (H0 : "hello world"%string <> ""%string) by discriminate.
  assert (H1 : Forall (fun b => Claim.is_printable b = true) (utf8 "hello world"))
    by (repeat constructor).
  repeat (split; [first [exact H0 | exact H1 | reflexivity]|]).
  apply (printable_text_is_txt "hello world" H0 H1); reflexivity.
Defined.

(** ** The download *)



(** ** The client's encoder and decoder *)

Lemma chunks_spec (fuel : nat) (data : list byte) :
  forall (offset : nat) (binary : string),
  (length data <= offset + fuel * Encryption.chunkSize)%nat ->
  binary = string_of_list_byte (take offset data) ->
  ApiClient.chunks fuel data offset binary = string_of_list_byte data.
Proof.
  assert (Hsize : (0 < Encryption.chunkSize)%nat) by (unfold Encryption.chunkSize; lia).
  induction fuel as [|fuel IH]; intros offset binary Hfuel ->.
  - cbn [ApiClient.chunks]. now rewrite take_ge by lia.
  - cbn [ApiClient.chunks].
    destruct (offset <? length data)%nat eqn:E.
    + apply IH; [lia|].
      rewrite <- string_of_list_byte_app. f_equal.
      unfold subarray.
      replace (offset + Encryption.chunkSize - offset)%nat
        with Encryption.chunkSize by lia.
      apply take_take_drop.
    + apply Nat.ltb_ge in E. now rewrite take_ge by lia.
Qed.

Lemma btoa_binary (data : list byte) :
  Base64.btoa (string_of_list_byte data) = Base64.to_base64 data.
Proof.
  unfold Base64.btoa, Base64.to_base64.
  now rewrite list_byte_of_string_of_list_byte.
Qed.

Lemma uint8ArrayToBase64_to_base64 (data : list byte) :
  ApiClient.uint8ArrayToBase64 data = Base64.to_base64 data.
Proof.
  unfold ApiClient.uint8ArrayToBase64.
  destruct data as [|b data]; [reflexivity|].
  change (length (b :: data) =? 0)%nat with false. cbv iota.
  rewrite chunks_spec; [apply btoa_binary| |reflexivity].
  unfold Encryption.chunkSize. nia.
Qed.

(** What the client encodes, the server decodes:
    [Buffer.from(uint8ArrayToBase64(data), 'base64')] is [data]. The
    encoder of the client agrees with [arrayToBase64], and the schema of the
    upload route lets its text through unless the file is empty. *)
Theorem uint8ArrayToBase64_decodes (data : list byte) :
  Base64.from_base64 (ApiClient.uint8ArrayToBase64 data) = data /\
  ApiClient.uint8ArrayToBase64 data = Encryption.arrayToBase64 data /\
  Schema.uploadSchema (ApiClient.uint8ArrayToBase64 data) = negb (length data =? 0)%nat.
Proof.
  rewrite uint8ArrayToBase64_to_base64.
  split; [apply from_base64_to_base64|]. split.
  - unfold Encryption.arrayToBase64. now rewrite chunk_loop_binary, btoa_binary.
  - destruct data as [|b data]; [reflexivity|].
    unfold Schema.uploadSchema, Schema.minLength.
    pose proof (to_base64_not_empty (b :: data) ltac:(discriminate)) as H.
    destruct (Base64.to_base64 (b :: data)); [discriminate H|reflexivity].
Qed.

Lemma atob_to_base64 (data : list byte) :
  Base64.atob (Base64.to_base64 data) = Some (string_of_list_byte data).
Proof. rewrite <- btoa_binary. apply atob_btoa. Qed.

(** ** Strings *)

Lemma chars_app (a b : string) :
  list_ascii_of_string (a ++ b) = list_ascii_of_string a ++ list_ascii_of_string b.
Proof.
  induction a as [|c a IH]; [reflexivity|].
  rewrite append_cons. cbn [list_ascii_of_string app]. now rewrite IH.
Qed.

Lemma string_of_chars_app (a b : list ascii) :
  string_of_list_ascii (a ++ b)
    = (string_of_list_ascii a ++ string_of_list_ascii b)%string.
Proof.
  induction a as [|c a IH]; [reflexivity|].
  cbn [app string_of_list_ascii]. now rewrite append_cons, IH.
Qed.

Lemma drop_while_head (p : ascii -> bool) (c : ascii) (cs : list ascii) :
  p c = false -> JS.drop_while p (c :: cs) = c :: cs.
Proof. intros H. cbn [JS.drop_while]. now rewrite H. Qed.

(** [trim] leaves a text as it is when it neither starts nor ends with white
    space. *)
Lemma trim_app (a b : string) (c c' : ascii) (cs cs' : list ascii) :
  list_ascii_of_string a = c :: cs ->
  JS.is_white_space c = false ->
  rev (list_ascii_of_string b) = c' :: cs' ->
  JS.is_white_space c' = false ->
  JS.trim (a ++ b) = (a ++ b)%string.
Proof.
  intros Ha Hc Hb Hc'. unfold JS.trim.
  rewrite chars_app, Ha. cbn [app].
  rewrite drop_while_head by exact Hc.
  change (c :: cs ++ list_ascii_of_string b)
    with ((c :: cs) ++ list_ascii_of_string b).
  rewrite rev_app_distr, Hb. cbn [app].
  rewrite drop_while_head by exact Hc'.
  change (c' :: cs' ++ rev (c :: cs)) with ((c' :: cs') ++ rev (c :: cs)).
  rewrite <- Hb, <- rev_app_distr, rev_involutive, <- Ha, <- chars_app.
  apply string_of_list_ascii_of_string.
Qed.

Lemma endsWith_app (part a b : string) :
  JS.endsWith part (a ++ b)
    = JS.starts (rev (list_ascii_of_string part))
                (rev (list_ascii_of_string b) ++ rev (list_ascii_of_string a)).
Proof. unfold JS.endsWith. now rewrite chars_app, rev_app_distr. Qed.

Lemma starts_app (l r : list ascii) : JS.starts l (l ++ r) = true.
Proof.
  induction l as [|c l IH]; [reflexivity|].
  cbn [JS.starts app]. now rewrite Ascii.eqb_refl, IH.
Qed.

Lemma toLowerCase_app (a b : string) :
  JS.toLowerCase (a ++ b) = (JS.toLowerCase a ++ JS.toLowerCase b)%string.
Proof.
  unfold JS.toLowerCase. now rewrite chars_app, map_app, string_of_chars_app.
Qed.

Lemma length_string_app (a b : string) :
  String.length (a ++ b) = (String.length a + String.length b)%nat.
Proof.
  induction a as [|c a IH]; [reflexivity|].
  rewrite append_cons. cbn [String.length]. now rewrite IH.
Qed.

Lemma substring_app_prefix (a b : string) :
  String.substring 0 (String.length (a ++ b) - String.length b) (a ++ b) = a.
Proof.
  assert (E : (String.length (a ++ b) - String.length b)%nat = String.length a).
  { rewrite length_string_app. lia. }
  rewrite E. clear E. induction a as [|c a IH].
  - cbn [String.length]. destruct (""%string ++ b)%string; reflexivity.
  - rewrite append_cons. cbn [String.length String.substring]. now rewrite IH.
Qed.

Lemma replace_bin_same (a : string) :
  JS.replace_bin ".bin" (a ++ ".bin") = (a ++ ".bin")%string.
Proof.
  unfold JS.replace_bin. rewrite endsWith_app.
  change (JS.starts _ _) with true. cbv iota zeta.
  change 4%nat with (String.length ".bin").
  now rewrite substring_app_prefix.
Qed.

(** [cleanFileName] on the name [drop-<id>.<type>] that the claim handler
    sends with a type: the name as it is, or the name without extension when
    the type is [bin]. The hypotheses are facts of the type that evaluate. *)
Lemma cleanFileName_typed (dropId e : string) (c : ascii) (cs : list ascii) :
  JS.strip_leading_dots (JS.trim e) = e ->
  String.eqb e "" = false ->
  rev (list_ascii_of_string ("." ++ e)) = c :: cs ->
  JS.is_white_space c = false ->
  JS.toLowerCase ("." ++ e) = ("." ++ e)%string ->
  (forall R, JS.starts (rev (list_ascii_of_string ".bin"))
                       (rev (list_ascii_of_string ("." ++ e)) ++ R)
             = String.eqb e "bin") ->
  ApiClient.cleanFileName dropId (Claim.fileName dropId e) e
    = if String.eqb e "bin"
      then ("drop-" ++ String.substring 0 12 dropId)%string
      else Claim.fileName dropId e.
Proof.
  intros Hs He Hr Hc Hl Hb.
  unfold Claim.fileName.
  set (X := String.substring 0 8 dropId).
  replace ("drop-" ++ X ++ "." ++ e)%string
    with (("drop-" ++ X) ++ ("." ++ e))%string by now rewrite string_app_assoc.
  set (A := ("drop-" ++ X)%string).
  unfold ApiClient.cleanFileName. cbv zeta. rewrite Hs, He.
  rewrite (trim_app A ("." ++ e) "d" c (list_ascii_of_string ("rop-" ++ X)) cs
             eq_refl eq_refl Hr Hc).
  assert (Hne : String.eqb (A ++ "." ++ e) "" = false) by reflexivity.
  rewrite Hne. cbv iota.
  rewrite Hl, (toLowerCase_app A ("." ++ e)), Hl.
  rewrite (endsWith_app ("." ++ e)), starts_app. cbn [negb].
  rewrite (endsWith_app ".bin"), Hb.
  destruct (String.eqb e "bin") eqn:E.
  - apply String.eqb_eq in E. subst e. cbv iota.
    rewrite replace_bin_same, (endsWith_app ".bin"). reflexivity.
  - cbv iota. rewrite (endsWith_app ".bin"), Hb. reflexivity.
Qed.

(** What [cleanFileName] makes of the name and the type that the claim
    handler sends: the name as it is, or the name without extension when
    the type is [bin]. *)
Lemma cleanFileName_sent (dropId : string) (fileType : Claim.FileType) :
  In fileType
     [ Claim.mkFileType "docx"
         "application/vnd.openxmlformats-officedocument.wordprocessingml.document";
       Claim.mkFileType "xlsx"
         "application/vnd.openxmlformats-officedocument.spreadsheetml.sheet";
       Claim.mkFileType "pptx"
         "application/vnd.openxmlformats-officedocument.presentationml.presentation";
       Claim.mkFileType "zip" "application/zip";
       Claim.mkFileType "png" "image/png";
       Claim.mkFileType "jpg" "image/jpeg";
       Claim.mkFileType "pdf" "application/pdf";
       Claim.mkFileType "gif" "image/gif";
       Claim.mkFileType "ps" "application/postscript";
       Claim.mkFileType "txt" "text/plain";
       Claim.mkFileType "bin" "application/octet-stream" ] ->
  JS.strip_leading_dots (JS.trim (Claim.ext fileType)) = Claim.ext fileType /\
  ApiClient.cleanFileName dropId (Claim.fileName dropId (Claim.ext fileType))
                          (Claim.ext fileType)
    = if String.eqb (Claim.ext fileType) "bin"
      then ("drop-" ++ String.substring 0 12 dropId)%string
      else Claim.fileName dropId (Claim.ext fileType).
Proof.
  intros Hin. cbn [In] in Hin.
  repeat (destruct Hin as [<-|Hin];
          [ split; [reflexivity|];
            cbn [Claim.ext];
            eapply cleanFileName_typed;
            [reflexivity|reflexivity|reflexivity|reflexivity|reflexivity
            |intros R; reflexivity] |]).
  destruct Hin.
Qed.

(** ** The client on the replies of the claim handler *)

(** What [claimDrop] returns for the JSON reply to a claim that decrypted a
    file. *)
Lemma claimDrop_sent (dropId : string) (decryptedFile : list byte) :
  let fileType := Claim.detectFileType decryptedFile in
  Claim.send dropId (Some "json") (Claim.File decryptedFile)
    = Claim.Json (Claim.Claimed (Claim.fileName dropId (Claim.ext fileType))
                    (Base64.to_base64 decryptedFile) (Claim.ext fileType)
                    (Claim.mimeType fileType)) /\
  ApiClient.claimDrop dropId
      (Claim.Claimed (Claim.fileName dropId (Claim.ext fileType))
         (Base64.to_base64 decryptedFile) (Claim.ext fileType)
         (Claim.mimeType fileType))
    = if bool_decide (decryptedFile = [])
      then JS.Throw "Failed to decode file content from base64"
      else JS.Normal (ApiClient.mkClaimedFile
                        (if String.eqb (Claim.ext fileType) "bin"
                         then ("drop-" ++ String.substring 0 12 dropId)%string
                         else Claim.fileName dropId (Claim.ext fileType))
                        decryptedFile (Claim.mimeType fileType) (Claim.ext fileType)).
Proof.
  intros fileType. split; [reflexivity|].
  unfold ApiClient.claimDrop.
  destruct (decide (decryptedFile = [])) as [->|Hne]; [reflexivity|].
  rewrite (to_base64_not_empty _ Hne), atob_to_base64, char_codes_spec.
  rewrite bool_decide_eq_false_2 by exact Hne.
  destruct (cleanFileName_sent dropId fileType (detectFileType_range decryptedFile))
    as [E1 E2].
  now rewrite E1, E2.
Qed.

(** The client on the JSON reply to a claim. [claimDrop] decodes the
    content to the decrypted file and keeps the type and the MIME type; it
    keeps the file name too, unless the type is [bin]: then the name is
    [drop-] and the first 12 characters of the identifier, without
    extension. For an empty file the reply is still 200 but [claimDrop]
    throws: the empty content is taken for a missing one. *)
Theorem claimDrop_of_sent_file (dropId : string) (decryptedFile : list byte) :
  exists body : Claim.json,
    Claim.send dropId (Some "json") (Claim.File decryptedFile) = Claim.Json body /\
    ApiClient.claimDrop dropId body
      = if bool_decide (decryptedFile = [])
        then JS.Throw "Failed to decode file content from base64"
        else
          let fileType := Claim.detectFileType decryptedFile in
          JS.Normal (ApiClient.mkClaimedFile
                       (if String.eqb (Claim.ext fileType) "bin"
                        then ("drop-" ++ String.substring 0 12 dropId)%string
                        else Claim.fileName dropId (Claim.ext fileType))
                       decryptedFile (Claim.mimeType fileType) (Claim.ext fileType)).
Proof.
  destruct (claimDrop_sent dropId decryptedFile) as [Hs Hc].
  eexists. split; [exact Hs|exact Hc].
Qed.



(** A failure of the claim handler reaches the caller of [claimDrop] as
    the error text of the reply. The status is 401, 403, 404 or 500, never
    the 400 for which the client has a text of its own. *)
Theorem claimDrop_reports_server_error
    (dropId passphrase : string) (w : World) (status : N) (error code : string) :
  fst (Claim.handler dropId passphrase w) = Claim.Failed status error code ->
  In status [401; 403; 404; 500] /\
  ApiClient.claimDrop dropId (Claim.Refused status error code) = JS.Throw error.
Proof.
  destruct (drops w !! dropId) as [d|] eqn:Hd.
  - destruct (drop_isActive d) eqn:Ha.
    + rewrite (claim_active_drop w dropId passphrase d Hd Ha).
      repeat match goal with
             | |- context [if ?c then _ else _] => destruct c
             | |- context [match ?c with _ => _ end] => destruct c
             end;
        intros [= <- <- <-]; (split; [cbn; auto|reflexivity]).
    + unfold Claim.handler, BlockDAGService.claimDrop, Contract.getDrop. run.
      rewrite Hd, Ha. intros [= <- <- <-]. split; [cbn; auto|reflexivity].
  - unfold Claim.handler, BlockDAGService.claimDrop, Contract.getDrop. run.
    rewrite Hd. intros [= <- <- <-]. split; [cbn; auto|reflexivity].
Qed.

Lemma claimDrop_reports_server_error_witness :
  fst (Claim.handler demo_dropId demo_passphrase demo_world)
    = Claim.Failed 404 "Drop not found" "DROP_NOT_FOUND" /\
  In 404 [401; 403; 404; 500] /\
  ApiClient.claimDrop demo_dropId (Claim.Refused 404 "Drop not found" "DROP_NOT_FOUND")
    = JS.Throw "Drop not found".
Proof.
  assert (H : fst (Claim.handler demo_dropId demo_passphrase demo_world)
              = Claim.Failed 404 "Drop not found" "DROP_NOT_FOUND").
  { assert (Hd : drops demo_world !! demo_dropId = None) by (vm_compute; reflexivity).
    unfold Claim.handler, BlockDAGService.claimDrop, Contract.getDrop. run.
    rewrite Hd. reflexivity. }
  split; [exact H|].
  exact (claimDrop_reports_server_error demo_dropId demo_passphrase demo_world
           404 "Drop not found" "DROP_NOT_FOUND" H).
Defined.

(** The status route and [getDropStatus] together: the client never
    throws. A drop that the ledger does not return is [expired] to the
    client; one that it returns is [claimed] or [active] by its [claimed]
    flag alone, also when the drop was deactivated, is counted as claimed at
    most once and is named [drop-], the first 8 characters of its
    identifier, [.bin]. *)
Theorem getDropStatus_of_status (dropId : string)
    (dropResult : AsyncResult Status.DropMetadata) :
  DropStatus.getDropStatus dropId (Status.handler dropId dropResult)
    = JS.Normal
        match dropResult with
        | Failure _ => DropStatus.mkDropStatus "" DropStatus.expired None None 0
        | Success drop =>
            DropStatus.mkDropStatus
              dropId
              (if Status.claimed drop then DropStatus.claimed else DropStatus.active)
              (Some (Status.ipfsHash drop))
              (Some ("drop-" ++ String.substring 0 8 dropId ++ ".bin")%string)
              (if Status.claimed drop then 1 else 0)
        end.
Proof.
  destruct dropResult as [drop|error]; reflexivity.
Qed.

(** ** The credentials of an upload *)









(** ** [lib/utils.ts] *)

Lemma test_app (class : ascii -> bool) (a b : string) :
  JS.test class (a ++ b) = JS.test class a || JS.test class b.
Proof. unfold JS.test. now rewrite chars_app, existsb_app. Qed.

(** The number of segments of [split] is one more than the number of
    separators. *)
Lemma length_split (separator : ascii -> bool) (s : string) :
  length (JS.split separator s)
    = S (length (List.filter separator (list_ascii_of_string s))).
Proof.
  induction s as [|c s IH]; [reflexivity|].
  cbn [JS.split list_ascii_of_string List.filter].
  destruct (separator c); cbn [length]; [now rewrite IH|].
  destruct (JS.split separator s) as [|segment segments]; [discriminate IH|].
  exact IH.
Qed.

Lemma separators_app (separator : ascii -> bool) (a b : string) :
  length (List.filter separator (list_ascii_of_string (a ++ b)))
    = (length (List.filter separator (list_ascii_of_string a))
       + length (List.filter separator (list_ascii_of_string b)))%nat.
Proof. now rewrite chars_app, List.filter_app, length_app. Qed.

Lemma words_plain : Forall plain_word Upload.words.
Proof. repeat constructor; cbn; lia. Qed.

Lemma word_of_byte_plain (b : byte) : plain_word (word_of_byte b).
Proof.
  pose proof words_plain as H. rewrite List.Forall_forall in H.
  apply H, word_of_byte_In.
Qed.

(** Every passphrase that the upload route generates scores 80 with the
    strength meter of the client (40 for its length, 10 for lower-case
    letters, 10 for the hyphens, 20 for its six segments) and passes
    [isValidPassphrase]. *)
Theorem generated_passphrase_strength (w : World) :
  let passphrase := fst (Upload.generatePassphrase w) in
  Utils.calculatePassphraseStrength passphrase = 80 /\
  Utils.isValidPassphrase passphrase = true.
Proof.
  cbv zeta. rewrite generatePassphrase_spec. cbn [fst seq map].
  pose proof (word_of_byte_plain (entropy w (drawn w + 0))) as (L0 & a0 & b0 & c0 & d0 & e0).
  pose proof (word_of_byte_plain (entropy w (drawn w + 1))) as (L1 & a1 & b1 & c1 & d1 & e1).
  pose proof (word_of_byte_plain (entropy w (drawn w + 2))) as (L2 & a2 & b2 & c2 & d2 & e2).
  pose proof (word_of_byte_plain (entropy w (drawn w + 3))) as (L3 & a3 & b3 & c3 & d3 & e3).
  pose proof (word_of_byte_plain (entropy w (drawn w + 4))) as (L4 & a4 & b4 & c4 & d4 & e4).
  pose proof (word_of_byte_plain (entropy w (drawn w + 5))) as (L5 & a5 & b5 & c5 & d5 & e5).
  revert L0 a0 b0 c0 d0 e0 L1 a1 b1 c1 d1 e1 L2 a2 b2 c2 d2 e2
         L3 a3 b3 c3 d3 e3 L4 a4 b4 c4 d4 e4 L5 a5 b5 c5 d5 e5.
  generalize (word_of_byte (entropy w (drawn w + 0))) as w0.
  generalize (word_of_byte (entropy w (drawn w + 1))) as w1.
  generalize (word_of_byte (entropy w (drawn w + 2))) as w2.
  generalize (word_of_byte (entropy w (drawn w + 3))) as w3.
  generalize (word_of_byte (entropy w (drawn w + 4))) as w4.
  generalize (word_of_byte (entropy w (drawn w + 5))) as w5.
  intros w5 w4 w3 w2 w1 w0. intros.
  change (Upload.join "-" [w0; w1; w2; w3; w4; w5])
    with (w0 ++ "-" ++ w1 ++ "-" ++ w2 ++ "-" ++ w3 ++ "-" ++ w4 ++ "-" ++ w5)%string.
  set (p := (w0 ++ _)%string).
  assert (Hlen : (23 <= String.length p)%nat).
  { unfold p. rewrite !length_string_app. cbn [String.length]. lia. }
  assert (Hlower : JS.test Utils.is_lower p = true).
  { unfold p. now rewrite test_app, a0. }
  assert (Hupper : JS.test Utils.is_upper p = false).
  { unfold p. rewrite !test_app, b0, b1, b2, b3, b4, b5. reflexivity. }
  assert (Hdigit : JS.test Utils.is_digit p = false).
  { unfold p. rewrite !test_app, c0, c1, c2, c3, c4, c5. reflexivity. }
  assert (Hother : JS.test Utils.is_other p = true).
  { unfold p. rewrite !test_app, d0. reflexivity. }
  assert (Hseg : length (JS.split Utils.is_separator p) = 6%nat).
  { rewrite length_split. unfold p.
    rewrite !separators_app, e0, e1, e2, e3, e4, e5. reflexivity. }
  split.
  - unfold Utils.calculatePassphraseStrength.
    assert (Hne : String.eqb p "" = false).
    { destruct p; [cbn in Hlen; lia|reflexivity]. }
    rewrite Hne, Hlower, Hupper, Hdigit, Hother, Hseg. cbv zeta.
    change (4 <=? 6)%nat with true. cbv iota. lia.
  - unfold Utils.isValidPassphrase. apply Nat.leb_le. lia.
Qed.

(** The strength is the sum of its bonuses: the final [Math.min(strength,
    100)] never cuts it, the bonuses adding up to 100 at most. A passphrase
    that is not empty scores at least 12. *)
Theorem calculatePassphraseStrength_range (passphrase : string) :
  let bonus (b : bool) (n : N) := if b then n else 0 in
  Utils.calculatePassphraseStrength passphrase
    = (if String.eqb passphrase "" then 0
       else N.min (2 * N.of_nat (String.length passphrase)) 40
            + bonus (JS.test Utils.is_lower passphrase) 10
            + bonus (JS.test Utils.is_upper passphrase) 10
            + bonus (JS.test Utils.is_digit passphrase) 10
            + bonus (JS.test Utils.is_other passphrase) 10
            + bonus (3 <=? length (List.filter Utils.is_separator
                                     (list_ascii_of_string passphrase)))%nat 20) /\
  (String.eqb passphrase "" = false ->
   12 <= Utils.calculatePassphraseStrength passphrase <= 100).
Proof.
  cbv zeta. unfold Utils.calculatePassphraseStrength.
  destruct passphrase as [|c rest]; [split; [reflexivity|discriminate]|].
  change (String.eqb (String c rest) "") with false. cbv iota zeta.
  rewrite length_split.
  change (4 <=? S ?n)%nat with (3 <=? n)%nat.
  assert (Hclass : JS.test Utils.is_lower (String c rest)
                   || JS.test Utils.is_upper (String c rest)
                   || JS.test Utils.is_digit (String c rest)
                   || JS.test Utils.is_other (String c rest) = true).
  { unfold JS.test. cbn [list_ascii_of_string existsb]. unfold Utils.is_other.
    destruct (Utils.is_lower c), (Utils.is_upper c), (Utils.is_digit c);
      cbn [orb negb]; rewrite ?orb_true_r; reflexivity. }
  revert Hclass.
  assert (Hl : 1 <= N.of_nat (String.length (String c rest))) by (cbn [String.length]; lia).
  revert Hl. generalize (N.of_nat (String.length (String c rest))) as len.
  intros len Hl.
  destruct (JS.test Utils.is_lower _), (JS.test Utils.is_upper _),
    (JS.test Utils.is_digit _), (JS.test Utils.is_other _), (3 <=? _)%nat;
    cbn [orb]; intros Hclass; try discriminate Hclass; split; try intros _; lia.
Qed.

Lemma length_substring_le (n : nat) (s : string) :
  (n <= String.length s)%nat -> String.length (String.substring 0 n s) = n.
Proof.
  revert s. induction n as [|n IH]; intros s H.
  - now destruct s.
  - destruct s as [|c s]; [cbn in H; lia|].
    cbn [String.substring String.length]. rewrite IH; [reflexivity|cbn in H; lia].
Qed.

(** [truncate] is idempotent, and the text it returns for a longer one has
    [length + 3] characters: the ellipsis comes on top of the length. *)
Theorem truncate_idempotent (str : string) (n : nat) :
  Utils.truncate (Utils.truncate str n) n = Utils.truncate str n /\
  String.length (Utils.truncate str n)
    = (if (String.length str <=? n)%nat then String.length str else n + 3)%nat.
Proof.
  unfold Utils.truncate.
  destruct (String.length str <=? n)%nat eqn:E.
  - now rewrite E.
  - apply Nat.leb_gt in E.
    assert (Hl : String.length (String.substring 0 n str ++ "...") = (n + 3)%nat).
    { rewrite length_string_app, length_substring_le by lia. reflexivity. }
    rewrite Hl. split; [|reflexivity].
    replace (n + 3 <=? n)%nat with false by (symmetry; apply Nat.leb_gt; lia).
    f_equal.
    rewrite <- (substring_app_prefix (String.substring 0 n str) "...") at 2.
    rewrite Hl. cbn [String.length]. f_equal. lia.
Qed.

(** ** [config/app.config.ts] *)

Lemma length_slice_from (n : nat) (s : string) :
  String.length (JS.slice_from n s) = (String.length s - n)%nat.
Proof.
  unfold JS.slice_from. revert s. induction n as [|n IH]; intros s.
  - rewrite Nat.sub_0_r. now rewrite substring_all.
  - destruct s as [|c s]; [reflexivity|].
    cbn [String.length String.substring Nat.sub]. apply IH.
Qed.

Lemma or_else_fallback (value : option string) (fallback : string) :
  fallback <> ""%string -> Config.or_else value fallback <> ""%string.
Proof.
  intros H. unfold Config.or_else, JS.or_else.
  destruct value as [v|]; [|exact H].
  destruct (String.eqb v "") eqn:E; [exact H|]. now apply String.eqb_neq.
Qed.

(** [validateConfig] on the configuration of an environment. It accepts
    exactly when a contract address is set and the private key has 64
    characters, or 66 with a leading [0x]; the characters are not looked
    at. [BLOCKDAG_RPC_URL is required] is never among the errors, the URL
    having a default. *)
Theorem validateConfig_accepts (env : Config.Env) :
  let blockdag := Config.config env in
  let key := Config.privateKey blockdag in
  (Config.validateConfig blockdag = JS.Normal tt <->
   Config.contractAddress blockdag <> ""%string /\
   String.length key = (if startsWith "0x" key then 66 else 64)%nat) /\
  forallb (fun e => negb (String.eqb e "BLOCKDAG_RPC_URL is required"))
          (Config.errors blockdag) = true.
Proof.
  cbv zeta.
  assert (Hrpc : String.eqb (Config.rpcUrl (Config.config env)) "" = false).
  { apply String.eqb_neq. cbn [Config.config Config.rpcUrl].
    apply or_else_fallback. discriminate. }
  generalize dependent (Config.config env). intros [rpcUrl contractAddress key] Hrpc.
  cbn [Config.rpcUrl Config.contractAddress Config.privateKey] in *.
  unfold Config.validateConfig, Config.errors.
  cbn [Config.rpcUrl Config.contractAddress Config.privateKey]. cbv zeta.
  rewrite Hrpc.
  assert (Hkey : (String.length (if startsWith "0x" key then JS.slice_from 2 key else key)
                    =? 64)%nat = true
                 <-> String.length key = (if startsWith "0x" key then 66 else 64)%nat).
  { rewrite Nat.eqb_eq. destruct (startsWith "0x" key) eqn:Ex; [|reflexivity].
    rewrite length_slice_from.
    assert (2 <= String.length key)%nat; [|lia].
    destruct key as [|a [|b key]]; [discriminate Ex| |cbn [String.length]; lia].
    unfold startsWith in Ex. cbn [String.prefix] in Ex.
    destruct (ascii_dec "0" a); discriminate Ex. }
  destruct (String.eqb key "") eqn:Ek.
  { apply String.eqb_eq in Ek. subst key.
    destruct (String.eqb contractAddress ""); cbn; (split; [|reflexivity]);
      split; [discriminate|intros [_ H]; discriminate H|discriminate
             |intros [_ H]; discriminate H]. }
  destruct (_ =? 64)%nat eqn:El; cbn [negb];
    destruct (String.eqb contractAddress "") eqn:Ea;
    cbn; (split; [|reflexivity]); split.
  - discriminate.
  - intros [H _]. apply String.eqb_eq in Ea. contradiction.
  - intros _. split; [now apply String.eqb_neq|now apply Hkey].
  - reflexivity.
  - discriminate.
  - intros [H _]. apply String.eqb_eq in Ea. contradiction.
  - discriminate.
  - intros [_ H]. apply Hkey in H. discriminate H.
Qed.

(** ** The first drop contract *)

Section QuantumDropFacts.

Import QuantumDrop.

Ltac requires :=
  unfold createDrop, claimDrop, deactivateDrop, getDrop, require;
  cbv zeta;
  repeat match goal with
         | |- context [if ?c then _ else _] => destruct c eqn:?
         end;
  cbn [fst snd drops claimed events].

Lemma drop_at_insert (s : gmap string Drop) (cl : gmap (string * address) bool)
    (log : list Event) (dropId dropId' : string) (d : Drop) :
  drop_at (mkStorage (<[dropId' := d]> s) cl log) dropId
    = if decide (dropId' = dropId) then d else drop_at (mkStorage s cl log) dropId.
Proof.
  unfold drop_at. cbn [drops]. destruct (decide (dropId' = dropId)) as [->|Hne].
  - now rewrite lookup_insert_eq.
  - now rewrite lookup_insert_ne.
Qed.

Lemma claimed_at_insert (s : gmap string Drop) (cl : gmap (string * address) bool)
    (log : list Event) (key key' : string * address) :
  claimed_at (mkStorage s (<[key' := true]> cl) log) key.1 key.2
    = if decide (key' = key) then true else claimed_at (mkStorage s cl log) key.1 key.2.
Proof.
  unfold claimed_at. cbn [claimed]. destruct key as [dropId a]. cbn [fst snd].
  destruct (decide (key' = (dropId, a))) as [->|Hne].
  - now rewrite lookup_insert_eq.
  - now rewrite lookup_insert_ne.
Qed.

(** One transaction leaves the record of an existing drop as it is, except
    that it may deactivate it. *)
Lemma exec_keeps_drop (msg : Msg) (c : Call) (s : Storage) (dropId : string) :
  owner (drop_at s dropId) <> 0 ->
  ipfsHash (drop_at (exec msg c s) dropId) = ipfsHash (drop_at s dropId) /\
  owner (drop_at (exec msg c s) dropId) = owner (drop_at s dropId) /\
  expiresAt (drop_at (exec msg c s) dropId) = expiresAt (drop_at s dropId) /\
  (isActive (drop_at (exec msg c s) dropId) = true ->
   isActive (drop_at s dropId) = true).
Proof.
  intros Ho. destruct s as [ds cl log].
  destruct c as [id h e|id|id]; cbn [exec]; requires; auto;
    rewrite drop_at_insert; destruct (decide (id = dropId)) as [->|_]; auto.
  match goal with H : (owner _ =? 0) = true |- _ => apply N.eqb_eq in H end.
  contradiction.
Qed.

Lemma run_keeps_drop (txs : list (Msg * Call)) (s : Storage) (dropId : string) :
  owner (drop_at s dropId) <> 0 ->
  ipfsHash (drop_at (run txs s) dropId) = ipfsHash (drop_at s dropId) /\
  owner (drop_at (run txs s) dropId) = owner (drop_at s dropId) /\
  expiresAt (drop_at (run txs s) dropId) = expiresAt (drop_at s dropId) /\
  (isActive (drop_at (run txs s) dropId) = true ->
   isActive (drop_at s dropId) = true).
Proof.
  revert s. induction txs as [|[msg c] txs IH]; intros s Ho; [cbn; auto|].
  cbn [run].
  destruct (exec_keeps_drop msg c s dropId Ho) as (E1 & E2 & E3 & E4).
  destruct (IH (exec msg c s)) as (F1 & F2 & F3 & F4); [congruence|].
  rewrite F1, F2, F3, E1, E2, E3. repeat split; auto.
Qed.

(** The record of a drop is frozen. Whatever transactions follow, an
    existing drop keeps its content identifier, its owner and its expiry,
    and a deactivated drop stays deactivated. *)
Theorem drop_record_frozen (txs : list (Msg * Call)) (s : Storage) (dropId : string) :
  owner (drop_at s dropId) <> 0 ->
  ipfsHash (drop_at (run txs s) dropId) = ipfsHash (drop_at s dropId) /\
  owner (drop_at (run txs s) dropId) = owner (drop_at s dropId) /\
  expiresAt (drop_at (run txs s) dropId) = expiresAt (drop_at s dropId) /\
  (isActive (drop_at s dropId) = false ->
   isActive (drop_at (run txs s) dropId) = false).
Proof.
  intros Ho. destruct (run_keeps_drop txs s dropId Ho) as (E1 & E2 & E3 & E4).
  repeat split; auto. intros Hi.
  destruct (isActive (drop_at (run txs s) dropId)); [|reflexivity].
  rewrite E4 in Hi by reflexivity. discriminate.
Qed.

Lemma drop_record_frozen_witness :
  owner (drop_at demo_storage "drop-1") <> 0 /\
  ipfsHash (drop_at (run demo_txs demo_storage) "drop-1")
    = ipfsHash (drop_at demo_storage "drop-1") /\
  owner (drop_at (run demo_txs demo_storage) "drop-1")
    = owner (drop_at demo_storage "drop-1") /\
  expiresAt (drop_at (run demo_txs demo_storage) "drop-1")
    = expiresAt (drop_at demo_storage "drop-1") /\
  (isActive (drop_at demo_storage "drop-1") = false ->
   isActive (drop_at (run demo_txs demo_storage) "drop-1") = false).
Proof.
  assert (H : owner (drop_at demo_storage "drop-1") <> 0)
    by (vm_compute; discriminate).
  split; [exact H|].
  exact (drop_record_frozen demo_txs demo_storage "drop-1" H).
Defined.

Lemma exec_keeps_claimed (msg : Msg) (c : Call) (s : Storage) (dropId : string)
    (claimer : address) :
  claimed_at s dropId claimer = true ->
  claimed_at (exec msg c s) dropId claimer = true.
Proof.
  intros Hc. destruct s as [ds cl log].
  destruct c as [id h e|id|id]; cbn [exec]; requires; auto.
  rewrite (claimed_at_insert ds cl _ (dropId, claimer)).
  now destruct (decide _).
Qed.

Lemma run_keeps_claimed (txs : list (Msg * Call)) (s : Storage) (dropId : string)
    (claimer : address) :
  claimed_at s dropId claimer = true ->
  claimed_at (run txs s) dropId claimer = true.
Proof.
  revert s. induction txs as [|[msg c] txs IH]; intros s Hc; [exact Hc|].
  cbn [run]. now apply IH, exec_keeps_claimed.
Qed.

Lemma claimDrop_returns (msg : Msg) (dropId : string) (s : Storage) :
  fst (claimDrop msg dropId s) = Contract.Returned tt ->
  owner (drop_at s dropId) <> 0 /\
  isActive (drop_at s dropId) = true /\
  timestamp msg < expiresAt (drop_at s dropId) /\
  claimed_at s dropId (sender msg) = false /\
  snd (claimDrop msg dropId s)
    = mkStorage (drops s) (<[(dropId, sender msg) := true]> (claimed s))
                (events s ++ [DropClaimed dropId (sender msg)]).
Proof.
  requires; intros H; try discriminate H.
  apply negb_true_iff, N.eqb_neq in Heqb. apply N.ltb_lt in Heqb1.
  apply negb_true_iff in Heqb2. auto.
Qed.

(** An account claims a drop once. After its claim, and whatever
    transactions follow, a claim of the drop by the same account reverts. *)
Theorem claimDrop_once (txs : list (Msg * Call)) (s : Storage) (msg msg' : Msg)
    (dropId : string) :
  fst (claimDrop msg dropId s) = Contract.Returned tt ->
  sender msg' = sender msg ->
  exists reason : string,
    fst (claimDrop msg' dropId (run txs (snd (claimDrop msg dropId s))))
      = Contract.Reverted reason /\
    In reason ["Drop inactive"; "Drop expired"; "Already claimed"]%string.
Proof.
  intros Hr Hs. apply claimDrop_returns in Hr as (Ho & _ & _ & _ & ->).
  set (s1 := mkStorage _ _ _).
  assert (Ho1 : owner (drop_at s1 dropId) <> 0) by exact Ho.
  assert (Hc1 : claimed_at s1 dropId (sender msg') = true).
  { rewrite Hs. unfold s1, claimed_at. cbn [claimed]. now rewrite lookup_insert_eq. }
  destruct (run_keeps_drop txs s1 dropId Ho1) as (_ & Eo & _ & _).
  pose proof (run_keeps_claimed txs s1 dropId _ Hc1) as Hc.
  unfold claimDrop, require. cbv zeta.
  rewrite Eo. apply N.eqb_neq in Ho1. rewrite Ho1, Hc. cbn [negb].
  destruct (isActive _); [|eexists; split; [reflexivity|cbn; auto]].
  destruct (_ <? _); eexists; (split; [reflexivity|cbn; auto]).
Qed.

Lemma claimDrop_once_witness :
  fst (claimDrop (mkMsg bob 130) "drop-1" demo_storage) = Contract.Returned tt /\
  sender (mkMsg bob 150) = sender (mkMsg bob 130) /\
  exists reason : string,
    fst (claimDrop (mkMsg bob 150) "drop-1"
           (run [] (snd (claimDrop (mkMsg bob 130) "drop-1" demo_storage))))
      = Contract.Reverted reason /\
    In reason ["Drop inactive"; "Drop expired"; "Already claimed"]%string.
Proof.
  assert (H : fst (claimDrop (mkMsg bob 130) "drop-1" demo_storage)
              = Contract.Returned tt) by (vm_compute; reflexivity).
  split; [exact H|]. split; [reflexivity|].
  exact (claimDrop_once [] demo_storage (mkMsg bob 130) (mkMsg bob 150) "drop-1"
           H eq_refl).
Defined.

(** [isValidDrop] tells whether a claim goes through: [claimDrop] returns
    exactly when the drop is valid and the sender has not claimed it. *)
Theorem claimDrop_iff_isValidDrop (msg : Msg) (dropId : string) (s : Storage) :
  fst (claimDrop msg dropId s) = Contract.Returned tt <->
  isValidDrop msg dropId s = true /\ hasClaimed dropId (sender msg) s = false.
Proof.
  unfold isValidDrop, hasClaimed, claimDrop, require. cbv zeta.
  destruct (owner _ =? 0); cbn [negb andb fst]; [intuition discriminate|].
  destruct (isActive _); cbn [andb fst]; [|intuition discriminate].
  destruct (_ <? _); cbn [fst]; [|intuition discriminate].
  destruct (claimed_at _ _ _); cbn [negb fst]; intuition discriminate.
Qed.

(** Creating a drop and reading it: on a free identifier, with an expiry
    in the future, [createDrop] returns; [getDrop] then returns what was
    given, with the sender as owner; the drop is valid; no other drop and
    no claim has changed. *)
Theorem createDrop_getDrop (msg : Msg) (dropId hash : string) (expiry : N)
    (s : Storage) :
  dropId <> ""%string ->
  hash <> ""%string ->
  sender msg <> 0 ->
  owner (drop_at s dropId) = 0 ->
  timestamp msg < expiry ->
  let s' := snd (createDrop msg dropId hash expiry s) in
  fst (createDrop msg dropId hash expiry s) = Contract.Returned tt /\
  fst (getDrop dropId s') = Contract.Returned (mkDrop hash (sender msg) expiry true) /\
  isValidDrop msg dropId s' = true /\
  (forall other : string, other <> dropId -> drop_at s' other = drop_at s other) /\
  (forall (other : string) (claimer : address),
     hasClaimed other claimer s' = hasClaimed other claimer s).
Proof.
  intros Hd Hh Hs Ho Ht s'. subst s'.
  unfold createDrop, require.
  assert (E1 : (0 <? String.length dropId)%nat = true).
  { destruct dropId; [congruence|reflexivity]. }
  assert (E2 : (0 <? String.length hash)%nat = true).
  { destruct hash; [congruence|reflexivity]. }
  apply N.ltb_lt in Ht. rewrite E1, E2, Ho, Ht. cbn [N.eqb fst snd].
  destruct s as [ds cl log].
  split; [reflexivity|].
  unfold getDrop, isValidDrop, require. cbv zeta.
  rewrite !drop_at_insert, !decide_True by reflexivity. cbn [owner isActive expiresAt].
  apply N.eqb_neq in Hs. rewrite Hs, Ht. cbn [negb andb fst].
  repeat split.
  intros other Hne. rewrite drop_at_insert, decide_False by congruence. reflexivity.
Qed.

Lemma createDrop_getDrop_witness :
  "drop-1"%string <> ""%string /\
  "QmHash"%string <> ""%string /\
  sender (mkMsg alice 100) <> 0 /\
  owner (drop_at deployed "drop-1") = 0 /\
  timestamp (mkMsg alice 100) < 200 /\
  fst (createDrop (mkMsg alice 100) "drop-1" "QmHash" 200 deployed)
    = Contract.Returned tt /\
  fst (getDrop "drop-1" demo_storage)
    = Contract.Returned (mkDrop "QmHash" (sender (mkMsg alice 100)) 200 true) /\
  isValidDrop (mkMsg alice 100) "drop-1" demo_storage = true /\
  (forall other : string, other <> "drop-1"%string ->
     drop_at demo_storage other = drop_at deployed other) /\
  (forall (other : string) (claimer : address),
     hasClaimed other claimer demo_storage = hasClaimed other claimer deployed).
Proof.
  assert (H1 : "drop-1"%string <> ""%string) by discriminate.
  assert (H2 : "QmHash"%string <> ""%string) by discriminate.
  assert (H3 : sender (mkMsg alice 100) <> 0) by discriminate.
  assert (H4 : owner (drop_at deployed "drop-1") = 0) by reflexivity.
  assert (H5 : timestamp (mkMsg alice 100) < 200) by reflexivity.
  do 5 (split; [assumption|]).
  exact (createDrop_getDrop (mkMsg alice 100) "drop-1" "QmHash" 200 deployed
           H1 H2 H3 H4 H5).
Defined.

Lemma claims_of_app (log log' : list Event) :
  claims_of (log ++ log') = claims_of log ++ claims_of log'.
Proof.
  induction log as [|[| |] log IH]; cbn [claims_of app]; congruence.
Qed.

Lemma exec_log_agrees (msg : Msg) (c : Call) (s : Storage) :
  log_agrees s -> log_agrees (exec msg c s).
Proof.
  intros [Hn Hi]. destruct s as [ds cl log].
  destruct c as [id h e|id|id]; cbn [exec]; requires;
    try (split; [exact Hn|exact Hi]).
  - split; cbn [events] in *; rewrite claims_of_app, app_nil_r.
    + exact Hn.
    + exact Hi.
  - apply negb_true_iff in Heqb2.
    split; cbn [events] in *; rewrite claims_of_app; cbn [claims_of].
    + apply NoDup_append; [exact Hn|repeat constructor; cbn; tauto|].
      intros x Hx [<-|[]]. apply Hi in Hx. congruence.
    + intros dropId claimer.
      rewrite (claimed_at_insert ds cl _ (dropId, claimer)).
      rewrite in_app_iff, Hi. cbn [In].
      destruct (decide ((id, sender msg) = (dropId, claimer))) as [E|Hne].
      * tauto.
      * intuition congruence.
  - split; cbn [events] in *; rewrite claims_of_app, app_nil_r.
    + exact Hn.
    + exact Hi.
Qed.

Lemma run_log_agrees (txs : list (Msg * Call)) (s : Storage) :
  log_agrees s -> log_agrees (run txs s).
Proof.
  revert s. induction txs as [|[msg c] txs IH]; intros s H; [exact H|].
  cbn [run]. now apply IH, exec_log_agrees.
Qed.

(** The log tells the claims. After any transactions on the deployed
    contract, [hasClaimed] holds of a drop and an account exactly when the
    log has their [DropClaimed] event, and the log has it once. *)
Theorem claims_logged_once (txs : list (Msg * Call)) :
  let s := run txs deployed in
  List.NoDup (claims_of (events s)) /\
  forall (dropId : string) (claimer : address),
    In (dropId, claimer) (claims_of (events s))
    <-> hasClaimed dropId claimer s = true.
Proof.
  apply (run_log_agrees txs deployed). split; [constructor|].
  intros dropId claimer. unfold claimed_at, deployed.
  cbn [events claimed claims_of In]. rewrite lookup_empty. cbn [default].
  intuition discriminate.
Qed.

(** Only its owner deactivates a drop: a transaction after which an
    active drop is inactive is [deactivateDrop] of that drop, sent by its
    owner. *)
Theorem only_owner_deactivates (msg : Msg) (c : Call) (s : Storage) (dropId : string) :
  isActive (drop_at s dropId) = true ->
  isActive (drop_at (exec msg c s) dropId) = false ->
  c = DeactivateDrop dropId /\ sender msg = owner (drop_at s dropId).
Proof.
  intros Ha Hi. destruct s as [ds cl log].
  destruct c as [id h e|id|id]; cbn [exec] in Hi; revert Hi; requires;
    unfold drop_at in *; cbn [drops] in *; intros Hi; try congruence;
    (destruct (decide (id = dropId)) as [->|Hne];
     [rewrite lookup_insert_eq in Hi|rewrite lookup_insert_ne in Hi by exact Hne]);
    cbn in Hi; try congruence.
  match goal with H : (owner _ =? sender msg) = true |- _ => apply N.eqb_eq in H end.
  auto.
Qed.

Lemma only_owner_deactivates_witness :
  isActive (drop_at demo_storage "drop-1") = true /\
  isActive (drop_at (exec (mkMsg alice 140) (DeactivateDrop "drop-1") demo_storage)
              "drop-1") = false /\
  DeactivateDrop "drop-1" = DeactivateDrop "drop-1" /\
  sender (mkMsg alice 140) = owner (drop_at demo_storage "drop-1").
Proof.
  assert (H1 : isActive (drop_at demo_storage "drop-1") = true)
    by (vm_compute; reflexivity).
  assert (H2 : isActive (drop_at (exec (mkMsg alice 140) (DeactivateDrop "drop-1")
                                    demo_storage) "drop-1") = false)
    by (vm_compute; reflexivity).
  split; [exact H1|]. split; [exact H2|].
  exact (only_owner_deactivates (mkMsg alice 140) (DeactivateDrop "drop-1")
           demo_storage "drop-1" H1 H2).
Defined.

End QuantumDropFacts.
